(** * cluster-reflector: the discovery-and-cache engine

    A shallow embedding of [app/pkg/discovery] (the [ClusterDiscovery]
    methods) and of [app/pkg/types] (the records and [IsExpired]),
    followed by the properties of the specification that concern them.

    Go strings are byte sequences: they are [string] here (a list of 8-bit
    [ascii]).  [map[string]*types.App] is a [gmap string App]: every key owns
    the one [App] that was allocated for it, so updating the pointee is
    updating the map entry.  [time.Time] is a count of nanoseconds and
    [time.Duration] a 64-bit signed count of nanoseconds. *)

From Stdlib Require Import ZArith Ascii String Lia.
From stdpp Require Import base tactics option list strings gmap fin_maps pretty.

Local Open Scope string_scope.
Local Open Scope list_scope.
Local Open Scope Z_scope.

Set Warnings "-clear-no-such-hyp".

(** ** Go's [strings] package, as far as the source uses it *)

Module Strings.

(** [strings.Split(s, sep)] for a one-byte separator, which is what every
    call site of the source passes ("/", ":", "@", ","): the pieces between
    the occurrences of [sep], and never an empty slice. *)
Fixpoint Split (s : string) (sep : ascii) : list string :=
  match s with
  | EmptyString => [EmptyString]
  | String c s' =>
      if Ascii.eqb c sep then EmptyString :: Split s' sep
      else match Split s' sep with
           | [] => [String c EmptyString]
           | piece :: rest => String c piece :: rest
           end
  end.

(** [strings.Contains(s, sub)]: [sub] occurs somewhere in [s]. *)
Fixpoint Contains (s sub : string) : bool :=
  match s with
  | EmptyString => String.prefix sub EmptyString
  | String _ s' => String.prefix sub s || Contains s' sub
  end.

(** The UTF-8 encodings of the runes for which [unicode.IsSpace] holds:
    the six ASCII ones, U+0085, U+00A0, U+1680, U+2000..U+200A, U+2028,
    U+2029, U+202F, U+205F and U+3000.  UTF-8 decoding accepts only the
    shortest encoding of a rune, so a string starts (ends) with a white-space
    rune exactly when it starts (ends) with one of these byte sequences. *)
Definition spaceRunes : list (list N) :=
  [ [9]; [10]; [11]; [12]; [13]; [32];
    [194; 133]; [194; 160];
    [225; 154; 128];
    [226; 128; 128]; [226; 128; 129]; [226; 128; 130]; [226; 128; 131];
    [226; 128; 132]; [226; 128; 133]; [226; 128; 134]; [226; 128; 135];
    [226; 128; 136]; [226; 128; 137]; [226; 128; 138];
    [226; 128; 168]; [226; 128; 169]; [226; 128; 175];
    [226; 129; 159];
    [227; 128; 128] ]%N.

Fixpoint stripPrefix (p b : list N) : option (list N) :=
  match p, b with
  | [], _ => Some b
  | x :: p', y :: b' => if N.eqb x y then stripPrefix p' b' else None
  | _ :: _, [] => None
  end.

Fixpoint stripAny (ps : list (list N)) (b : list N) : option (list N) :=
  match ps with
  | [] => None
  | p :: ps' =>
      match stripPrefix p b with
      | Some b' => Some b'
      | None => stripAny ps' b
      end
  end.

(** Drops the leading runes of [ps]; every step consumes a byte, so the
    length of the input is fuel enough. *)
Fixpoint trimLeftFuel (fuel : nat) (ps : list (list N)) (b : list N) : list N :=
  match fuel with
  | O => b
  | S fuel' =>
      match stripAny ps b with
      | Some b' => trimLeftFuel fuel' ps b'
      | None => b
      end
  end.

Definition trimLeft (b : list N) : list N :=
  trimLeftFuel (length b) spaceRunes b.

Definition trimRight (b : list N) : list N :=
  rev (trimLeftFuel (length b) (map (@rev N) spaceRunes) (rev b)).

Definition bytes (s : string) : list N :=
  map N_of_ascii (list_ascii_of_string s).

Definition ofBytes (b : list N) : string :=
  string_of_list_ascii (map ascii_of_N b).

(** [strings.TrimSpace(s)]: [s] without its leading and trailing white
    space, as Unicode defines it. *)
Definition TrimSpace (s : string) : string :=
  ofBytes (trimRight (trimLeft (bytes s))).

End Strings.

(** ** [app/pkg/types] *)

(** [time.Duration] is an [int64]. *)
Definition minDuration : Z := - 2 ^ 63.
Definition maxDuration : Z := 2 ^ 63 - 1.

(** Two's-complement wrap-around of 64-bit signed arithmetic. *)
Definition wrap64 (z : Z) : Z := (z + 2 ^ 63) mod 2 ^ 64 - 2 ^ 63.

(** [d * 2] on a [time.Duration]. *)
Definition Duration_mul (d k : Z) : Z := wrap64 (d * k).

(** [t.Sub(u)]: the difference, saturated to the range of a [Duration]. *)
Definition Time_Sub (t u : Z) : Z :=
  Z.max minDuration (Z.min maxDuration (t - u)).

(** [time.Since(t)] when the clock reads [now]. *)
Definition time_Since (now t : Z) : Z := Time_Sub now t.

Record Node := mkNode {
  NodeName : string;
  NodeIP : string;
  NodeRole : string;
  NodeVersion : string
}.

Record App := mkApp {
  Name : string;
  Version : string;
  Variants : list string
}.

Record ClusterInfo := mkClusterInfo {
  APIVersion : string;
  Timestamp : Z;
  Nodes : list Node;
  Apps : list App
}.

(** [CRDOnly] is read by the discovery code ([cd.config.CRDOnly]) and set by
    the [--crd-only] flag. *)
Record Config := mkConfig {
  CacheTTL : Z;
  NamespaceSelector : string;
  PreferCRD : bool;
  FallbackWorkloads : bool;
  CRDOnly : bool;
  WorkloadKinds : list string
}.

(** [Data] is a pointer: [None] is [nil]. *)
Record ClusterCache := mkClusterCache {
  Data : option ClusterInfo;
  UpdatedAt : Z;
  TTL : Z
}.

Definition IsExpired (now : Z) (c : ClusterCache) : bool :=
  bool_decide (time_Since now (UpdatedAt c) > TTL c).

#[global] Instance App_eq_dec : EqDecision App.
Proof. solve_decision. Defined.

(** ** String parsing of the discovery package *)

Definition parseImageTag (image : string) : string * string :=
  let parts := Strings.Split image "/" in
  let imageName := default "" (last parts) in
  let nameTag := Strings.Split imageName ":" in
  match nameTag with
  | [] => ("", "latest")
  | [name] => (name, "latest")
  | name :: tag :: _ =>
      if Strings.Contains tag "@"
      then (name, hd "" (Strings.Split tag "@"))
      else (name, tag)
  end.

Definition parseNamespaceSelector (selector : string) : list string :=
  if bool_decide (selector = "") then [""]
  else map Strings.TrimSpace (Strings.Split selector ",").

(** ** The cluster, as the client libraries show it *)

(** An [interface{}] value of an unstructured object: what a JSON document
    decodes to. *)
#[warnings="-register-all"]
Inductive value :=
  | VNull
  | VBool (b : bool)
  | VNum (z : Z)
  | VStr (s : string)
  | VList (l : list value)
  | VObj (fields : list (string * value)).

(** [map[string]interface{}], keys looked up from the front. *)
Abbreviation object := (list (string * value)).

Fixpoint field (k : string) (o : object) : option value :=
  match o with
  | [] => None
  | (k', v) :: o' => if bool_decide (k' = k) then Some v else field k o'
  end.

(** [v.(map[string]interface{})] and [v.(string)], with the [ok] flag as the
    option. *)
Definition asObject (v : option value) : option object :=
  match v with Some (VObj o) => Some o | _ => None end.

Definition asString (v : option value) : option string :=
  match v with Some (VStr s) => Some s | _ => None end.

Record Container := mkContainer { Image : string }.

(** What the source reads of a Deployment or StatefulSet: [Labels] and
    [Spec.Template.Spec.Containers]. *)
Record Workload := mkWorkload {
  Labels : gmap string string;
  Containers : list Container
}.

(** Go's [error] values of this package: one that is only a message (what a
    client call returns, or [fmt.Errorf] without a cause), one wrapped by
    [fmt.Errorf("<ctx>: %w", err)], and the staleness error of [HealthCheck]
    with the age it prints. *)
Inductive error :=
  | ErrorString (msg : string)
  | Wrapped (ctx : string) (cause : error)
  | CacheStale (age : Z).

Inductive Resource := AppVersions | Deployments | StatefulSets.

Record Taint := mkTaint { TaintKey : string; TaintEffect : string }.

Record NodeAddress := mkNodeAddress { AddressType : string; Address : string }.

(** What the source reads of a [corev1.Node]. *)
Record K8sNode := mkK8sNode {
  ObjectName : string;
  NodeLabels : gmap string string;
  Taints : list Taint;
  Addresses : list NodeAddress;
  KubeletVersion : string
}.

(** What a read of the API server answers.  The namespace [""] is
    [metav1.NamespaceAll]: the list runs across all namespaces.  [nodeList]
    answers [Nodes().List] without a limit, [nodeProbe] is the error of
    [Nodes().List] with [Limit: 1]. *)
Record Cluster := mkCluster {
  crdList : string -> error + list object;
  deploymentList : string -> error + list Workload;
  statefulSetList : string -> error + list Workload;
  nodeList : error + list K8sNode;
  nodeProbe : option error
}.

Inductive Level := Debug | Info | Warn | Error.

Inductive Func := DiscoverAppsFromCRD | DiscoverAppsFromWorkloads.

(** The observable steps: a source function is entered, a list request is
    sent for a namespace, the nodes are listed with [ListOptions.Limit] set to
    [limit] (0 is no limit), a line is logged. *)
Inductive Event :=
  | EvCall (f : Func)
  | EvList (r : Resource) (ns : string)
  | EvListNodes (limit : Z)
  | EvLog (l : Level) (msg : string) (err : option error).

#[global] Instance error_eq_dec : EqDecision error.
Proof. solve_decision. Defined.
#[global] Instance Resource_eq_dec : EqDecision Resource.
Proof. solve_decision. Defined.
#[global] Instance Level_eq_dec : EqDecision Level.
Proof. solve_decision. Defined.
#[global] Instance Func_eq_dec : EqDecision Func.
Proof. solve_decision. Defined.
#[global] Instance Event_eq_dec : EqDecision Event.
Proof. solve_decision. Defined.

(** ** The discovery monad

    A discovery function receives the shared [appMap], mutates it, talks to
    the API server and logs: a state monad over the map that also writes
    the events in the order they happen. *)

Definition M (A : Type) : Type :=
  gmap string App -> A * gmap string App * list Event.

#[global] Instance M_ret : MRet M := fun A a m => (a, m, []).

#[global] Instance M_bind : MBind M := fun A B f c m =>
  let '(a, m1, t1) := c m in
  let '(b, m2, t2) := f a m1 in
  (b, m2, t1 ++ t2).

Definition emit (e : Event) : M unit := fun m => (tt, m, [e]).

Definition update (f : gmap string App -> gmap string App) : M unit :=
  fun m => (tt, f m, []).

Definition logLine (l : Level) (msg : string) (err : option error) : M unit :=
  emit (EvLog l msg err).

(** [for _, x := range xs { body(x) }] *)
Fixpoint forEach {A : Type} (xs : list A) (body : A -> M unit) : M unit :=
  match xs with
  | [] => mret tt
  | x :: xs' => body x ;; forEach xs' body
  end.

Definition mapOf {A} (r : A * gmap string App * list Event) : gmap string App :=
  snd (fst r).
Definition traceOf {A} (r : A * gmap string App * list Event) : list Event :=
  snd r.
Definition resultOf {A} (r : A * gmap string App * list Event) : A :=
  fst (fst r).

(** ** [app/pkg/discovery]: folding observations into the map *)

(** The loop over [existing.Variants] that sets [found]. *)
Fixpoint hasVariant (variants : list string) (v : string) : bool :=
  match variants with
  | [] => false
  | variant :: rest => if bool_decide (variant = v) then true else hasVariant rest v
  end.

(** [if !found { existing.Variants = append(existing.Variants, v) }] *)
Definition addVariant (variants : list string) (v : string) : list string :=
  if hasVariant variants v then variants else variants ++ [v].

Definition processAppVersionFromUnstructured (obj : object)
    (appMap : gmap string App) : gmap string App :=
  match asObject (field "spec" obj) with
  | None => appMap
  | Some spec =>
      match asString (field "name" spec) with
      | None => appMap
      | Some name =>
          match asString (field "version" spec) with
          | None => appMap
          | Some version =>
              match appMap !! name with
              | Some existing =>
                  <[name := {| Name := Name existing;
                               Version := version;
                               Variants := addVariant (Variants existing) version |}]> appMap
              | None =>
                  <[name := {| Name := name;
                               Version := version;
                               Variants := [version] |}]> appMap
              end
          end
      end
  end.

(** [labels[k]]: the empty string when the key is absent. *)
Definition label (labels : gmap string string) (k : string) : string :=
  default "" (labels !! k).

Definition processWorkloadLabels (labels : gmap string string)
    (containers : list Container) (appMap : gmap string App) : gmap string App :=
  let appName := label labels "app.kubernetes.io/name" in
  let appVersion := label labels "app.kubernetes.io/version" in
  let '(appName, appVersion) :=
    match containers with
    | first :: _ =>
        if bool_decide (appName = "") then parseImageTag (Image first)
        else (appName, appVersion)
    | [] => (appName, appVersion)
    end in
  if bool_decide (appName = "") then appMap
  else
    let appVersion :=
      if bool_decide (appVersion = "") then "unknown" else appVersion in
    match appMap !! appName with
    | Some existing =>
        <[appName := {| Name := Name existing;
                        Version := Version existing;
                        Variants := addVariant (Variants existing) appVersion |}]> appMap
    | None =>
        <[appName := {| Name := appName;
                        Version := appVersion;
                        Variants := [appVersion] |}]> appMap
    end.

(** ** [app/pkg/discovery]: the two sources *)

Section Discovery.

Variable cfg : Config.
Variable api : Cluster.

(** [cd.dynamicClient.Resource(gvr).Namespace(ns).List(...)]; without
    [Namespace(...)] the namespace of the request is [""]. *)
Definition listAppVersions (ns : string) : M (error + list object) :=
  emit (EvList AppVersions ns) ;; mret (crdList api ns).

Definition listDeployments (ns : string) : M (error + list Workload) :=
  emit (EvList Deployments ns) ;; mret (deploymentList api ns).

Definition listStatefulSets (ns : string) : M (error + list Workload) :=
  emit (EvList StatefulSets ns) ;; mret (statefulSetList api ns).

(** The loop over [namespaces] of [discoverAppsFromCRD]: a namespace whose
    list fails is logged and the loop goes on ([continue]). *)
Fixpoint crdNamespaces (namespaces : list string) : M unit :=
  match namespaces with
  | [] => mret tt
  | ns :: rest =>
      r ← listAppVersions ns;
      match r with
      | inl err =>
          logLine Warn "Failed to list AppVersions in namespace" (Some err)
      | inr items =>
          forEach items (fun item => update (processAppVersionFromUnstructured item))
      end ;;
      crdNamespaces rest
  end.

Definition discoverAppsFromCRD : M (option error) :=
  emit (EvCall DiscoverAppsFromCRD) ;;
  if bool_decide (NamespaceSelector cfg = "") then
    r ← listAppVersions "";
    match r with
    | inl err => mret (Some (Wrapped "failed to list AppVersions" err))
    | inr items =>
        forEach items (fun item => update (processAppVersionFromUnstructured item)) ;;
        mret None
    end
  else
    crdNamespaces (parseNamespaceSelector (NamespaceSelector cfg)) ;;
    mret None.

(** The first namespace whose list fails ends the function ([return]). *)
Fixpoint discoverFromDeployments (namespaces : list string) : M (option error) :=
  match namespaces with
  | [] => mret None
  | ns :: rest =>
      r ← (if bool_decide (ns = "") then listDeployments "" else listDeployments ns);
      match r with
      | inl err => mret (Some (Wrapped "failed to list deployments" err))
      | inr items =>
          forEach items (fun deployment =>
            update (processWorkloadLabels (Labels deployment) (Containers deployment))) ;;
          discoverFromDeployments rest
      end
  end.

Fixpoint discoverFromStatefulSets (namespaces : list string) : M (option error) :=
  match namespaces with
  | [] => mret None
  | ns :: rest =>
      r ← (if bool_decide (ns = "") then listStatefulSets "" else listStatefulSets ns);
      match r with
      | inl err => mret (Some (Wrapped "failed to list statefulsets" err))
      | inr items =>
          forEach items (fun sts =>
            update (processWorkloadLabels (Labels sts) (Containers sts))) ;;
          discoverFromStatefulSets rest
      end
  end.

(** The body of the loop over [cd.config.WorkloadKinds]: the [switch]. *)
Definition workloadKind (namespaces : list string) (kind : string) : M unit :=
  if bool_decide (kind = "Deployment") then
    err ← discoverFromDeployments namespaces;
    match err with
    | Some e => logLine Error "Failed to discover from deployments" (Some e)
    | None => mret tt
    end
  else if bool_decide (kind = "StatefulSet") then
    err ← discoverFromStatefulSets namespaces;
    match err with
    | Some e => logLine Error "Failed to discover from statefulsets" (Some e)
    | None => mret tt
    end
  else mret tt.

Definition discoverAppsFromWorkloads : M (option error) :=
  emit (EvCall DiscoverAppsFromWorkloads) ;;
  let namespaces :=
    if bool_decide (NamespaceSelector cfg ≠ "")
    then parseNamespaceSelector (NamespaceSelector cfg)
    else [""] in
  forEach (WorkloadKinds cfg) (workloadKind namespaces) ;;
  mret None.

(** ** The merge policy *)

(** [discoverApps] up to the conversion of the map: the two guarded
    source calls on a fresh [appMap]. *)
Definition discoverAppsBody : M unit :=
  (if PreferCRD cfg then
     err ← discoverAppsFromCRD;
     match err with
     | Some e => logLine Warn "CRD discovery failed, falling back to workloads" (Some e)
     | None => mret tt
     end
   else mret tt) ;;
  (if FallbackWorkloads cfg && negb (CRDOnly cfg) then
     err ← discoverAppsFromWorkloads;
     match err with
     | Some e => logLine Error "Workload discovery failed" (Some e)
     | None => mret tt
     end
   else if CRDOnly cfg then
     logLine Debug "CRD-only mode enabled, skipping workload discovery" None
   else mret tt).

(** [discoverApps]: the slice of the map's values and the returned error.
    Go ranges over a map in an unspecified order; the order here is that of
    [map_to_list], one of the possible ones. *)
Definition discoverApps : (list App * option error) * list Event :=
  let r := discoverAppsBody ∅ in
  ((map snd (map_to_list (mapOf r)), None), traceOf r).

End Discovery.

(** ** Node discovery *)

Fixpoint getNodeInternalIP (addresses : list NodeAddress) : string :=
  match addresses with
  | [] => ""
  | addr :: rest =>
      if bool_decide (AddressType addr = "InternalIP") then Address addr
      else getNodeInternalIP rest
  end.

Fixpoint taintRole (taints : list Taint) : string :=
  match taints with
  | [] => "worker"
  | taint :: rest =>
      if (Strings.Contains (TaintKey taint) "control-plane"
          || Strings.Contains (TaintKey taint) "master")
         && bool_decide (TaintEffect taint = "NoSchedule")
      then "control-plane"
      else taintRole rest
  end.

Definition getNodeRole (node : K8sNode) : string :=
  if bool_decide (is_Some (NodeLabels node !! "node-role.kubernetes.io/control-plane"))
  then "control-plane"
  else if bool_decide (is_Some (NodeLabels node !! "node-role.kubernetes.io/master"))
  then "control-plane"
  else taintRole (Taints node).

Definition discoverNodes (api : Cluster) : (error + list Node) * list Event :=
  (match nodeList api with
   | inl err => inl (Wrapped "failed to list nodes" err)
   | inr items =>
       inr (map (fun node =>
                   {| NodeName := ObjectName node;
                      NodeIP := getNodeInternalIP (Addresses node);
                      NodeRole := getNodeRole node;
                      NodeVersion := KubeletVersion node |}) items)
   end, [EvListNodes 0]).

(** ** The cache: construction, refresh and the query facade *)

Definition schemaVersion : string := "reflector.grid.sce.com/v1".

Definition validateConfig (cfg : Config) : option error :=
  if CRDOnly cfg && negb (PreferCRD cfg)
  then Some (ErrorString "CRD-only mode requires preferCRD to be true")
  else None.

(** The cache [NewClusterDiscovery] allocates: no data, the zero [Time]
    (the origin of the nanosecond count) and the configured TTL. *)
Definition newCache (cfg : Config) : ClusterCache :=
  {| Data := None; UpdatedAt := 0; TTL := CacheTTL cfg |}.

(** [refreshCache]; [stamp] and [updated] are what [time.Now()] returns for
    [Timestamp] and for [UpdatedAt]. *)
Definition refreshCache (cfg : Config) (api : Cluster) (stamp updated : Z)
    (c : ClusterCache) : option error * ClusterCache * list Event :=
  let enter := [EvLog Debug "Refreshing cache" None] in
  match discoverNodes api with
  | (inl err, t1) =>
      (Some (Wrapped "failed to discover nodes" err), c, enter ++ t1)
  | (inr nodes, t1) =>
      match discoverApps cfg api with
      | ((_, Some err), t2) =>
          (Some (Wrapped "failed to discover apps" err), c, enter ++ t1 ++ t2)
      | ((apps, None), t2) =>
          (None,
           {| Data := Some {| APIVersion := schemaVersion;
                              Timestamp := stamp;
                              Nodes := nodes;
                              Apps := apps |};
              UpdatedAt := updated;
              TTL := TTL c |},
           enter ++ t1 ++ t2 ++ [EvLog Debug "Cache refreshed" None])
      end
  end.

(** [GetClusterInfo]; [now] is the clock reading of [IsExpired] and [stamp]
    the one written to [Timestamp].  [||] is short-circuit: an empty cache
    is not asked whether it expired. *)
Definition GetClusterInfo (now stamp : Z) (c : ClusterCache)
    : ClusterInfo * list Event :=
  match Data c with
  | None =>
      ({| APIVersion := schemaVersion; Timestamp := stamp; Nodes := []; Apps := [] |},
       [EvLog Warn "Cache is expired or empty" None])
  | Some data =>
      if IsExpired now c then
        ({| APIVersion := schemaVersion; Timestamp := stamp; Nodes := []; Apps := [] |},
         [EvLog Warn "Cache is expired or empty" None])
      else
        ({| APIVersion := APIVersion data;
            Timestamp := stamp;
            Nodes := Nodes data;
            Apps := Apps data |}, [])
  end.

(** [HealthCheck]; [now] is the clock reading of [time.Since]. *)
Definition HealthCheck (cfg : Config) (api : Cluster) (now : Z)
    (c : ClusterCache) : option error * list Event :=
  match nodeProbe api with
  | Some err =>
      (Some (Wrapped "failed to connect to Kubernetes API" err), [EvListNodes 1])
  | None =>
      let cacheAge := time_Since now (UpdatedAt c) in
      if bool_decide (cacheAge > Duration_mul (CacheTTL cfg) 2)
      then (Some (CacheStale cacheAge), [EvListNodes 1])
      else (None, [EvListNodes 1])
  end.

(** ** Vocabulary of the specification

    The definitions below are not code of the repository: they name what
    the specification talks about, so that the theorems can compare it with
    what the code computes. *)

(** One object met by a discovery pass, tagged with its source. *)
Inductive Observation :=
  | FromCRD (obj : object)
  | FromWorkload (w : Workload).

(** Folding one observation, by the function of its source. *)
Definition foldOne (appMap : gmap string App) (o : Observation) : gmap string App :=
  match o with
  | FromCRD obj => processAppVersionFromUnstructured obj appMap
  | FromWorkload w => processWorkloadLabels (Labels w) (Containers w) appMap
  end.

Definition foldAll (obs : list Observation) : gmap string App :=
  foldl foldOne ∅ obs.

(** The (name, version) pair an observation supplies, if any: §4.2
    (string [spec.name] and [spec.version]) and §4.3 (labels, else the image
    of the first container, "unknown" for an empty version, nothing for an
    empty name). *)
Definition contributes (o : Observation) : option (string * string) :=
  match o with
  | FromCRD obj =>
      spec ← asObject (field "spec" obj);
      name ← asString (field "name" spec);
      version ← asString (field "version" spec);
      Some (name, version)
  | FromWorkload w =>
      let byLabel := (label (Labels w) "app.kubernetes.io/name",
                      label (Labels w) "app.kubernetes.io/version") in
      let '(name, version) :=
        if bool_decide (byLabel.1 = "")
        then match Containers w with
             | first :: _ => parseImageTag (Image first)
             | [] => byLabel
             end
        else byLabel in
      if bool_decide (name = "") then None
      else Some (name, if bool_decide (version = "") then "unknown" else version)
  end.

(** The versions a sequence of observations supplies for [name], in order. *)
Definition versionsOf (name : string) (obs : list Observation) : list string :=
  omap (fun o =>
          match contributes o with
          | Some (n, v) => if bool_decide (n = name) then Some v else None
          | None => None
          end) obs.

(** The distinct elements of a list, each at the place of its first
    occurrence. *)
Fixpoint firstSeen (vs : list string) : list string :=
  match vs with
  | [] => []
  | v :: rest => v :: filter (fun x => x ≠ v) (firstSeen rest)
  end.

(** The namespaces a workload lister is asked for: those up to the first
    one whose list fails, that one included. *)
Fixpoint requested {A} (lister : string -> error + list A) (namespaces : list string)
    : list string :=
  match namespaces with
  | [] => []
  | ns :: rest =>
      ns :: match lister ns with
            | inl _ => []
            | inr _ => requested lister rest
            end
  end.

(** The workloads that lister hands over on the way. *)
Fixpoint visited {A} (lister : string -> error + list A) (namespaces : list string)
    : list A :=
  match namespaces with
  | [] => []
  | ns :: rest =>
      match lister ns with
      | inl _ => []
      | inr items => items ++ visited lister rest
      end
  end.

(** The items of the namespaces whose list succeeds. *)
Definition listed {A} (lister : string -> error + list A) (namespaces : list string)
    : list A :=
  mjoin (map (fun ns => match lister ns with inl _ => [] | inr items => items end)
             namespaces).

(** The namespaces both sources resolve a selector to. *)
Definition resolved (cfg : Config) : list string :=
  if bool_decide (NamespaceSelector cfg = "") then [""]
  else parseNamespaceSelector (NamespaceSelector cfg).

(** What folding a pair does to the map; [overwrite] tells whether the
    version of an entry that exists is replaced. *)
Definition upsert (overwrite : bool) (name version : string)
    (appMap : gmap string App) : gmap string App :=
  match appMap !! name with
  | Some existing =>
      <[name := {| Name := Name existing;
                   Version := if overwrite then version else Version existing;
                   Variants := addVariant (Variants existing) version |}]> appMap
  | None =>
      <[name := {| Name := name; Version := version; Variants := [version] |}]> appMap
  end.

Definition overwrites (o : Observation) : bool :=
  match o with FromCRD _ => true | FromWorkload _ => false end.

(** The error a workload lister ends with: that of the first namespace
    whose list fails. *)
Fixpoint firstFailure {A} (ctx : string) (lister : string -> error + list A)
    (namespaces : list string) : option error :=
  match namespaces with
  | [] => None
  | ns :: rest =>
      match lister ns with
      | inl err => Some (Wrapped ctx err)
      | inr _ => firstFailure ctx lister rest
      end
  end.

(** The workloads and the events of one entry of [WorkloadKinds]. *)
Definition kindItems (api : Cluster) (namespaces : list string) (kind : string)
    : list Workload :=
  if bool_decide (kind = "Deployment") then visited (deploymentList api) namespaces
  else if bool_decide (kind = "StatefulSet") then visited (statefulSetList api) namespaces
  else [].

Definition failureLog (msg : string) (err : option error) : list Event :=
  match err with
  | Some e => [EvLog Error msg (Some e)]
  | None => []
  end.

Definition kindTrace (api : Cluster) (namespaces : list string) (kind : string)
    : list Event :=
  if bool_decide (kind = "Deployment") then
    map (EvList Deployments) (requested (deploymentList api) namespaces)
    ++ failureLog "Failed to discover from deployments"
         (firstFailure "failed to list deployments" (deploymentList api) namespaces)
  else if bool_decide (kind = "StatefulSet") then
    map (EvList StatefulSets) (requested (statefulSetList api) namespaces)
    ++ failureLog "Failed to discover from statefulsets"
         (firstFailure "failed to list statefulsets" (statefulSetList api) namespaces)
  else [].

(** The error and the events of the CRD source. *)
Definition crdFailure (cfg : Config) (api : Cluster) : option error :=
  if bool_decide (NamespaceSelector cfg = "") then
    match crdList api "" with
    | inl err => Some (Wrapped "failed to list AppVersions" err)
    | inr _ => None
    end
  else None.

Definition crdNamespaceTrace (api : Cluster) (ns : string) : list Event :=
  EvList AppVersions ns ::
  match crdList api ns with
  | inl err => [EvLog Warn "Failed to list AppVersions in namespace" (Some err)]
  | inr _ => []
  end.

Definition crdTrace (cfg : Config) (api : Cluster) : list Event :=
  EvCall DiscoverAppsFromCRD ::
  (if bool_decide (NamespaceSelector cfg = "") then [EvList AppVersions ""]
   else mjoin (map (crdNamespaceTrace api) (parseNamespaceSelector (NamespaceSelector cfg)))).

Definition workloadTrace (cfg : Config) (api : Cluster) : list Event :=
  EvCall DiscoverAppsFromWorkloads ::
  mjoin (map (kindTrace api (resolved cfg)) (WorkloadKinds cfg)).

(** The events of the two steps of the merge policy. *)
Definition crdPhase (cfg : Config) (api : Cluster) : list Event :=
  if PreferCRD cfg then
    crdTrace cfg api
    ++ match crdFailure cfg api with
       | Some e =>
           [EvLog Warn "CRD discovery failed, falling back to workloads" (Some e)]
       | None => []
       end
  else [].

Definition workloadPhase (cfg : Config) (api : Cluster) : list Event :=
  if FallbackWorkloads cfg && negb (CRDOnly cfg) then workloadTrace cfg api
  else if CRDOnly cfg
  then [EvLog Debug "CRD-only mode enabled, skipping workload discovery" None]
  else [].

(** The AppVersion objects and the workloads one pass folds, in order. *)
Definition processedCRD (cfg : Config) (api : Cluster) : list object :=
  if PreferCRD cfg then listed (crdList api) (resolved cfg) else [].

Definition processedWorkloads (cfg : Config) (api : Cluster) : list Workload :=
  if FallbackWorkloads cfg && negb (CRDOnly cfg)
  then mjoin (map (kindItems api (resolved cfg)) (WorkloadKinds cfg))
  else [].

Definition processed (cfg : Config) (api : Cluster) : list Observation :=
  map FromCRD (processedCRD cfg api) ++ map FromWorkload (processedWorkloads cfg api).

(** The invariant of the fold (§3, §4.2): an entry exists for the names
    that were supplied and for no other; it carries its key as name, and its
    variants are the versions supplied for the name, each once, in the order
    of their first occurrence. *)
Definition variantsInvariant (obs : list Observation) (appMap : gmap string App) : Prop :=
  ∀ name,
    match appMap !! name with
    | None => versionsOf name obs = []
    | Some a =>
        Name a = name
        ∧ versionsOf name obs ≠ []
        ∧ Variants a = firstSeen (versionsOf name obs)
    end.

(** §4.3 as the specification words it: the version of an entry is the one
    that was supplied last for its name, whichever source supplied it. *)
Definition lastProcessedWins (cfg : Config) (api : Cluster) (name : string) : Prop :=
  ∀ a, mapOf (discoverAppsBody cfg api ∅) !! name = Some a ->
       last (versionsOf name (processed cfg api)) = Some (Version a).

(** Which source an event belongs to. *)
Definition isCRDEvent (e : Event) : bool :=
  match e with
  | EvCall DiscoverAppsFromCRD | EvList AppVersions _ => true
  | _ => false
  end.

Definition isWorkloadEvent (e : Event) : bool :=
  match e with
  | EvCall DiscoverAppsFromWorkloads
  | EvList Deployments _ | EvList StatefulSets _ => true
  | _ => false
  end.

(** ** The worked example of the specification (§8) *)

(** The defaults of the command-line flags. *)
Definition defaultConfig : Config :=
  {| CacheTTL := 10 * 1000000000;
     NamespaceSelector := "";
     PreferCRD := true;
     FallbackWorkloads := true;
     CRDOnly := false;
     WorkloadKinds := ["Deployment"; "StatefulSet"] |}.

Definition myAppVersion : object :=
  [("spec", VObj [("name", VStr "my-app"); ("version", VStr "1.0.0")])].

Definition myDeployment : Workload :=
  {| Labels := {[ "app.kubernetes.io/name" := "my-app";
                  "app.kubernetes.io/version" := "0.9.0" ]};
     Containers := [] |}.

Definition controlPlaneNode : K8sNode :=
  {| ObjectName := "node-1";
     NodeLabels := {[ "node-role.kubernetes.io/control-plane" := "" ]};
     Taints := [];
     Addresses := [ {| AddressType := "InternalIP"; Address := "10.0.1.100" |} ];
     KubeletVersion := "v1.28.4" |}.

Definition exampleCluster : Cluster :=
  {| crdList := fun _ => inr [myAppVersion];
     deploymentList := fun _ => inr [myDeployment];
     statefulSetList := fun _ => inr [];
     nodeList := inr [controlPlaneNode];
     nodeProbe := None |}.

(** ** A cluster in which one namespace refuses its lists *)

Definition labelled (name version : string) : Workload :=
  {| Labels := {[ "app.kubernetes.io/name" := name;
                  "app.kubernetes.io/version" := version ]};
     Containers := [] |}.

Definition appVersionObject (name version : string) : object :=
  [("spec", VObj [("name", VStr name); ("version", VStr version)])].

(** The selector names the namespaces "a" and "b". *)
Definition twoNamespaces : Config :=
  {| CacheTTL := 10 * 1000000000;
     NamespaceSelector := "a,b";
     PreferCRD := true;
     FallbackWorkloads := true;
     CRDOnly := false;
     WorkloadKinds := ["Deployment"; "StatefulSet"] |}.

(** Listing AppVersions or Deployments in "a" fails; "b" holds one of
    each; both namespaces hold a StatefulSet. *)
Definition refusingA : Cluster :=
  {| crdList := fun ns =>
       if bool_decide (ns = "a") then inl (ErrorString "forbidden")
       else inr [appVersionObject "crd-b" "1.0"];
     deploymentList := fun ns =>
       if bool_decide (ns = "a") then inl (ErrorString "forbidden")
       else inr [labelled "web-b" "2.0"];
     statefulSetList := fun ns =>
       if bool_decide (ns = "a") then inr [labelled "db-a" "1.0"]
       else inr [labelled "db-b" "1.0"];
     nodeList := inr [];
     nodeProbe := None |}.

(** A selector with an empty token between its two names. *)
Definition emptyToken : Config :=
  {| CacheTTL := 10 * 1000000000;
     NamespaceSelector := "a,,b";
     PreferCRD := true;
     FallbackWorkloads := true;
     CRDOnly := false;
     WorkloadKinds := ["Deployment"; "StatefulSet"] |}.

(** The cache of the worked example, refreshed at time 1000 with a TTL of
    ten seconds. *)
Definition freshCache : ClusterCache :=
  snd (fst (refreshCache defaultConfig exampleCluster 1000 1001
              (newCache defaultConfig))).

(** An expired cache that still holds the example's data. *)
Definition expiredCache : ClusterCache :=
  {| Data := Some {| APIVersion := schemaVersion;
                     Timestamp := 1000;
                     Nodes := [];
                     Apps := [ {| Name := "my-app"; Version := "1.0.0";
                                  Variants := ["1.0.0"; "0.9.0"] |} ] |};
     UpdatedAt := 1000;
     TTL := 500 |}.

(** ** [app/pkg/discovery]: the refresh loop *)

(** The cases the [select] of [Start] takes, in the order it takes them: the
    context is done, the stop channel is closed, or the ticker fires.  (When
    several channels are ready Go takes any of them; the list is the choice
    that was made.)  A tick carries the cluster as it is at that moment and
    the two clock readings of the refresh it triggers. *)
Inductive Signal :=
  | CtxDone
  | StopClosed
  | TickerFired (api : Cluster) (stamp updated : Z).

(** How far [Start] got: it returned, it panicked ([time.NewTicker] panics on
    an interval that is not positive), or it is still in its loop, waiting for
    the next signal. *)
Inductive Outcome :=
  | Returned (err : option error)
  | Panicked
  | Waiting.

(** The [for { select { ... } }] loop of [Start]. *)
Fixpoint serveSignals (cfg : Config) (signals : list Signal) (c : ClusterCache)
    : Outcome * ClusterCache * list Event :=
  match signals with
  | [] => (Waiting, c, [])
  | CtxDone :: _ =>
      (Returned None, c, [EvLog Info "Stopping cluster discovery" None])
  | StopClosed :: _ =>
      (Returned None, c, [EvLog Info "Discovery stopped" None])
  | TickerFired api stamp updated :: rest =>
      let '(err, c', t) := refreshCache cfg api stamp updated c in
      let logged :=
        match err with
        | Some e => [EvLog Error "Failed to refresh cache" (Some e)]
        | None => []
        end in
      let '(outcome, c'', t') := serveSignals cfg rest c' in
      (outcome, c'', t ++ logged ++ t')
  end.

(** [Start]: the initial refresh with the cluster [api] and its two clock
    readings, then the ticker of period [CacheTTL / 2] (Go's division
    truncates towards zero) and the loop. *)
Definition Start (cfg : Config) (api : Cluster) (stamp updated : Z)
    (signals : list Signal) (c : ClusterCache)
    : Outcome * ClusterCache * list Event :=
  let intro := [EvLog Info "Starting cluster discovery" None;
                EvLog Info "Discovery configuration" None] in
  match refreshCache cfg api stamp updated c with
  | (Some err, c', t) =>
      (Returned (Some (Wrapped "failed initial cache refresh" err)), c', intro ++ t)
  | (None, c', t) =>
      if bool_decide (Z.quot (CacheTTL cfg) 2 <= 0) then (Panicked, c', intro ++ t)
      else
        let '(outcome, c'', t') := serveSignals cfg signals c' in
        (outcome, c'', intro ++ t ++ t')
  end.

(** ** [app/pkg/server]: the metrics handler *)

Definition newline : string := String "010" EmptyString.

(** The loop of [handleMetrics] over [info.Nodes]: the two counters. *)
Fixpoint countRoles (nodes : list Node) (controlPlaneNodes workerNodes : Z) : Z * Z :=
  match nodes with
  | [] => (controlPlaneNodes, workerNodes)
  | node :: rest =>
      if bool_decide (NodeRole node = "control-plane")
      then countRoles rest (controlPlaneNodes + 1) workerNodes
      else countRoles rest controlPlaneNodes (workerNodes + 1)
  end.

(** One gauge: the HELP line, the TYPE line and the sample, [%d] being the
    decimal notation of the integer. *)
Definition gauge (name help : string) (value : Z) : string :=
  "# HELP " +:+ name +:+ " " +:+ help +:+ newline
  +:+ "# TYPE " +:+ name +:+ " gauge" +:+ newline
  +:+ name +:+ " " +:+ pretty value +:+ newline.

(** The body [handleMetrics] writes for a snapshot. *)
Definition metricsBody (info : ClusterInfo) : string :=
  let '(controlPlaneNodes, workerNodes) := countRoles (Nodes info) 0 0 in
  gauge "cluster_reflector_nodes_total" "Total number of nodes in the cluster"
    (Z.of_nat (length (Nodes info)))
  +:+ gauge "cluster_reflector_apps_total" "Total number of discovered applications"
        (Z.of_nat (length (Apps info)))
  +:+ gauge "cluster_reflector_control_plane_nodes" "Total number of control plane nodes"
        controlPlaneNodes
  +:+ gauge "cluster_reflector_worker_nodes" "Total number of worker nodes"
        workerNodes.

(** [handleMetrics]: the content type and the body, for the snapshot
    [GetClusterInfo] returns at the time of the request. *)
Definition handleMetrics (now stamp : Z) (c : ClusterCache) : string * string :=
  let info := fst (GetClusterInfo now stamp c) in
  ("text/plain; charset=utf-8", metricsBody info).

(** ** More vocabulary *)

(** The kinds the [switch] of [discoverAppsFromWorkloads] has a case for. *)
Definition knownKind (kind : string) : bool :=
  bool_decide (kind = "Deployment") || bool_decide (kind = "StatefulSet").

Definition withKinds (cfg : Config) (kinds : list string) : Config :=
  {| CacheTTL := CacheTTL cfg;
     NamespaceSelector := NamespaceSelector cfg;
     PreferCRD := PreferCRD cfg;
     FallbackWorkloads := FallbackWorkloads cfg;
     CRDOnly := CRDOnly cfg;
     WorkloadKinds := kinds |}.

(** The version an entry ends with: the last one an AppVersion object
    supplied for the name, and when none did, the first one a workload
    supplied. *)
Definition primaryOf (name : string) (obs : list Observation) : option string :=
  match last (versionsOf name (filter (fun o => overwrites o = true) obs)) with
  | Some v => Some v
  | None => head (versionsOf name obs)
  end.

(** A cluster none of whose requests succeeds. *)
Definition unreachable : Cluster :=
  {| crdList := fun _ => inl (ErrorString "timeout");
     deploymentList := fun _ => inl (ErrorString "timeout");
     statefulSetList := fun _ => inl (ErrorString "timeout");
     nodeList := inl (ErrorString "timeout");
     nodeProbe := Some (ErrorString "timeout") |}.

(** ** Two more configurations and clusters *)

(** A TTL of 2^62 ns, some 146 years: the largest the flag accepts is
    2^63 - 1 ns. *)
Definition wrappingTTL : Config :=
  {| CacheTTL := 2 ^ 62;
     NamespaceSelector := "";
     PreferCRD := true;
     FallbackWorkloads := true;
     CRDOnly := false;
     WorkloadKinds := ["Deployment"; "StatefulSet"] |}.

(** Its cache, refreshed at time 1000. *)
Definition wrappingCache : ClusterCache :=
  snd (fst (refreshCache wrappingTTL exampleCluster 1000 1001 (newCache wrappingTTL))).

(** A cluster that refuses the Deployment and StatefulSet lists of the
    namespace [refused], and answers every other list with the Deployment of
    the worked example and no StatefulSet. *)
Definition refusingWorkloadsOf (refused : string) : Cluster :=
  {| crdList := fun _ => inr [];
     deploymentList := fun ns =>
       if bool_decide (ns = refused) then inl (ErrorString "forbidden")
       else inr [myDeployment];
     statefulSetList := fun ns =>
       if bool_decide (ns = refused) then inl (ErrorString "forbidden")
       else inr [];
     nodeList := inr [];
     nodeProbe := None |}.

(** * Properties *)

(** ** Strings *)

Lemma Split_nonempty s sep : Strings.Split s sep ≠ [].
Proof.
  destruct s as [|c s]; simpl; [done|].
  destruct (Ascii.eqb c sep); [done|].
  by destruct (Strings.Split s sep).
Qed.

Example split_empty : Strings.Split "" "," = [""].
Proof. reflexivity. Qed.

Example split_trailing : Strings.Split "prod," "," = ["prod"; ""].
Proof. reflexivity. Qed.

Example trim_mixed :
  Strings.TrimSpace (String "009" (" a b " +:+ Strings.ofBytes [194; 160]%N)) = "a b".
Proof. vm_compute. reflexivity. Qed.

Example parse_selector_spaces : parseNamespaceSelector "a, b" = ["a"; "b"].
Proof. vm_compute. reflexivity. Qed.

Example parse_image_untagged : parseImageTag "nginx" = ("nginx", "latest").
Proof. reflexivity. Qed.

(** C3.  [parseImageTag] maps "registry.io/team/app:1.2.3" to ("app",
    "1.2.3") and "app:1.2.3@sha256:abcd" to ("app", "1.2.3"), as specified.
    On "app@sha256:abcd", a digest without a tag, it splits at the colon of
    the digest and returns the name "app@sha256" with the version "abcd",
    where the specification expects ("app", "latest"). *)
Theorem parseImageTag_digest_without_tag :
  parseImageTag "registry.io/team/app:1.2.3" = ("app", "1.2.3")
  ∧ parseImageTag "app:1.2.3@sha256:abcd" = ("app", "1.2.3")
  ∧ parseImageTag "app@sha256:abcd" = ("app@sha256", "abcd")
  ∧ parseImageTag "app@sha256:abcd" ≠ ("app", "latest").
Proof. repeat split; try reflexivity. discriminate. Qed.

(** ** The query facade *)

Lemma Time_Sub_range t u : minDuration <= Time_Sub t u <= maxDuration.
Proof. unfold Time_Sub, minDuration, maxDuration. lia. Qed.

Lemma Time_Sub_exact t u :
  minDuration <= t - u <= maxDuration -> Time_Sub t u = t - u.
Proof. unfold Time_Sub. lia. Qed.

Lemma wrap64_small z : minDuration <= z <= maxDuration -> wrap64 z = z.
Proof.
  unfold wrap64, minDuration, maxDuration. intros H.
  rewrite Z.mod_small; lia.
Qed.

Lemma Duration_double d :
  - 2 ^ 62 <= d < 2 ^ 62 -> Duration_mul d 2 = 2 * d.
Proof.
  intros H. unfold Duration_mul. rewrite wrap64_small; [lia|].
  unfold minDuration, maxDuration. lia.
Qed.

(** C7.  [GetClusterInfo] is a total function: it returns a snapshot for
    every cache and every clock reading.  When the cache holds no data, or
    the age of its data exceeds the TTL, the snapshot is the placeholder: no
    node, no app, the current time and the schema version
    "reflector.grid.sce.com/v1". *)
Theorem GetClusterInfo_placeholder (now stamp : Z) (c : ClusterCache) :
  Data c = None ∨ time_Since now (UpdatedAt c) > TTL c ->
  fst (GetClusterInfo now stamp c)
  = {| APIVersion := "reflector.grid.sce.com/v1";
       Timestamp := stamp;
       Nodes := [];
       Apps := [] |}.
Proof.
  intros H. unfold GetClusterInfo, IsExpired.
  destruct (Data c) as [data|]; [|reflexivity].
  destruct H as [H|H]; [discriminate|].
  rewrite bool_decide_eq_true_2 by exact H. reflexivity.
Qed.

Lemma GetClusterInfo_placeholder_witness :
  fst (GetClusterInfo 2000 2001 expiredCache)
  = {| APIVersion := "reflector.grid.sce.com/v1";
       Timestamp := 2001;
       Nodes := [];
       Apps := [] |}.
Proof.
  apply (GetClusterInfo_placeholder 2000 2001 expiredCache).
  right. vm_compute. reflexivity.
Defined.

(** What a successful [refreshCache] installs. *)
Lemma refreshCache_installs cfg api stamp updated c c' tr :
  refreshCache cfg api stamp updated c = (None, c', tr) ->
  ∃ nodes,
    fst (discoverNodes api) = inr nodes
    ∧ c' = {| Data := Some {| APIVersion := schemaVersion;
                              Timestamp := stamp;
                              Nodes := nodes;
                              Apps := fst (fst (discoverApps cfg api)) |};
              UpdatedAt := updated;
              TTL := TTL c |}.
Proof.
  unfold refreshCache.
  destruct (discoverNodes api) as [[err|nodes] t1]; [discriminate|].
  destruct (discoverApps cfg api) as [[apps [err|]] t2]; [discriminate|].
  intros [= <- _]. by exists nodes.
Qed.

(** C8.  When the cache holds data whose age does not exceed the TTL,
    [GetClusterInfo] returns the data with the timestamp replaced by the
    current time: the nodes, the apps and the schema version are those of the
    snapshot that was installed last, and nothing is logged. *)
Theorem GetClusterInfo_fresh (now stamp : Z) (c : ClusterCache) (data : ClusterInfo) :
  Data c = Some data ->
  time_Since now (UpdatedAt c) <= TTL c ->
  GetClusterInfo now stamp c
  = ({| APIVersion := APIVersion data;
        Timestamp := stamp;
        Nodes := Nodes data;
        Apps := Apps data |}, []).
Proof.
  intros Hd Hage. unfold GetClusterInfo, IsExpired. rewrite Hd.
  rewrite bool_decide_eq_false_2 by lia. reflexivity.
Qed.

Lemma GetClusterInfo_fresh_witness :
  GetClusterInfo 2000 2001 freshCache
  = ({| APIVersion := "reflector.grid.sce.com/v1";
        Timestamp := 2001;
        Nodes := [ {| NodeName := "node-1"; NodeIP := "10.0.1.100";
                      NodeRole := "control-plane"; NodeVersion := "v1.28.4" |} ];
        Apps := [ {| Name := "my-app"; Version := "1.0.0";
                     Variants := ["1.0.0"; "0.9.0"] |} ] |}, []).
Proof.
  apply (GetClusterInfo_fresh 2000 2001 freshCache
           {| APIVersion := "reflector.grid.sce.com/v1";
              Timestamp := 1000;
              Nodes := [ {| NodeName := "node-1"; NodeIP := "10.0.1.100";
                            NodeRole := "control-plane"; NodeVersion := "v1.28.4" |} ];
              Apps := [ {| Name := "my-app"; Version := "1.0.0";
                           Variants := ["1.0.0"; "0.9.0"] |} ] |}).
  - vm_compute. reflexivity.
  - vm_compute. discriminate.
Defined.

(** [HealthCheck] in the terms of the code: the probe first, then the age
    against the 64-bit product [CacheTTL * 2]. *)
Lemma HealthCheck_cases cfg api now c :
  fst (HealthCheck cfg api now c)
  = match nodeProbe api with
    | Some err => Some (Wrapped "failed to connect to Kubernetes API" err)
    | None =>
        if bool_decide (time_Since now (UpdatedAt c) > Duration_mul (CacheTTL cfg) 2)
        then Some (CacheStale (time_Since now (UpdatedAt c)))
        else None
    end.
Proof.
  unfold HealthCheck. destruct (nodeProbe api); [reflexivity|].
  by case_bool_decide.
Qed.

(** C9, as amended.  With a TTL whose double is a [Duration] (from -2^62
    to below 2^62 ns, some 146 years), and a connectivity probe that succeeds:
    when the age of the cache exceeds twice the TTL, [HealthCheck] returns the
    staleness error; when the age is at most twice the TTL, it returns no
    error.  The probe is one node list limited to one result. *)
Theorem HealthCheck_stale (cfg : Config) (api : Cluster) (now : Z) (c : ClusterCache) :
  - 2 ^ 62 <= CacheTTL cfg < 2 ^ 62 ->
  nodeProbe api = None ->
  let age := time_Since now (UpdatedAt c) in
  (age > 2 * CacheTTL cfg ->
     HealthCheck cfg api now c = (Some (CacheStale age), [EvListNodes 1]))
  ∧ (age <= 2 * CacheTTL cfg ->
     HealthCheck cfg api now c = (None, [EvListNodes 1])).
Proof.
  intros Httl Hprobe age. unfold HealthCheck. rewrite Hprobe.
  rewrite (Duration_double _ Httl). fold age.
  split; intros H.
  - by rewrite bool_decide_eq_true_2.
  - rewrite bool_decide_eq_false_2; [done|lia].
Qed.

Lemma HealthCheck_stale_witness :
  HealthCheck defaultConfig exampleCluster 30000000000 freshCache
  = (Some (CacheStale 29999998999), [EvListNodes 1])
  ∧ HealthCheck defaultConfig exampleCluster 15000000000 freshCache
    = (None, [EvListNodes 1]).
Proof.
  split.
  - apply (HealthCheck_stale defaultConfig exampleCluster 30000000000 freshCache).
    + vm_compute. split; [discriminate|reflexivity].
    + reflexivity.
    + vm_compute. reflexivity.
  - apply (HealthCheck_stale defaultConfig exampleCluster 15000000000 freshCache).
    + vm_compute. split; [discriminate|reflexivity].
    + reflexivity.
    + vm_compute. discriminate.
Defined.

(** C9, as the specification states it, fails for a TTL of 2^62 ns: the
    product [CacheTTL * 2] wraps around to -2^63, so with a probe that
    succeeds and a cache of age 0, which is at most twice the TTL,
    [HealthCheck] returns the staleness error. *)
Lemma HealthCheck_wrapping_counterexample :
  nodeProbe exampleCluster = None
  ∧ time_Since 1001 (UpdatedAt wrappingCache) = 0
  ∧ time_Since 1001 (UpdatedAt wrappingCache) <= 2 * CacheTTL wrappingTTL
  ∧ Duration_mul (CacheTTL wrappingTTL) 2 = - 2 ^ 63
  ∧ HealthCheck wrappingTTL exampleCluster 1001 wrappingCache
    = (Some (CacheStale 0), [EvListNodes 1])
  ∧ fst (HealthCheck wrappingTTL exampleCluster 1001 wrappingCache) ≠ None.
Proof.
  split; [reflexivity|]. split; [vm_compute; reflexivity|].
  split; [vm_compute; discriminate|]. split; [vm_compute; reflexivity|].
  split; [vm_compute; reflexivity|]. vm_compute. discriminate.
Qed.

(** ** Running the discovery monad *)

Lemma bind_run {A B} (c : M A) (f : A -> M B) m :
  (c ≫= f) m
  = (resultOf (f (resultOf (c m)) (mapOf (c m))),
     mapOf (f (resultOf (c m)) (mapOf (c m))),
     traceOf (c m) ++ traceOf (f (resultOf (c m)) (mapOf (c m)))).
Proof.
  unfold mbind, M_bind, resultOf, mapOf, traceOf.
  destruct (c m) as [[a m1] t1]; simpl.
  by destruct (f a m1) as [[b m2] t2].
Qed.

Lemma ret_run {A} (a : A) m : (mret a : M A) m = (a, m, []).
Proof. reflexivity. Qed.

Lemma emit_run e m : emit e m = (tt, m, [e]).
Proof. reflexivity. Qed.

Lemma update_run f m : update f m = (tt, f m, []).
Proof. reflexivity. Qed.

Lemma logLine_run l msg err m : logLine l msg err m = (tt, m, [EvLog l msg err]).
Proof. reflexivity. Qed.

(** Rewrites a run of monadic code down to its triple. *)
Ltac run :=
  repeat first
    [ rewrite bind_run | rewrite ret_run | rewrite emit_run
    | rewrite update_run | rewrite logLine_run
    | progress (unfold resultOf, mapOf, traceOf; cbn [fst snd]) ].

Lemma forEach_update {A} (f : A -> gmap string App -> gmap string App) items m :
  forEach items (fun x => update (f x)) m
  = (tt, foldl (fun acc x => f x acc) m items, []).
Proof.
  revert m. induction items as [|x items IH]; intros m; [done|].
  cbn [forEach]. rewrite bind_run, update_run.
  unfold resultOf, mapOf, traceOf; cbn [fst snd]. by rewrite IH.
Qed.

Lemma foldl_FromCRD m items :
  foldl (fun acc x => processAppVersionFromUnstructured x acc) m items
  = foldl foldOne m (map FromCRD items).
Proof. revert m. induction items; intros m; simpl; [done|]. by rewrite IHitems. Qed.

Lemma foldl_FromWorkload m items :
  foldl (fun acc w => processWorkloadLabels (Labels w) (Containers w) acc) m items
  = foldl foldOne m (map FromWorkload items).
Proof. revert m. induction items; intros m; simpl; [done|]. by rewrite IHitems. Qed.

Section Runs.

Variable cfg : Config.
Variable api : Cluster.

Lemma crdNamespaces_run namespaces m :
  crdNamespaces api namespaces m
  = (tt,
     foldl foldOne m (map FromCRD (listed (crdList api) namespaces)),
     mjoin (map (crdNamespaceTrace api) namespaces)).
Proof.
  revert m. induction namespaces as [|ns rest IH]; intros m; [done|].
  cbn [crdNamespaces]. rewrite !bind_run. unfold listAppVersions. rewrite bind_run.
  unfold emit, crdNamespaceTrace, listed; simpl.
  unfold resultOf, mapOf, traceOf; simpl.
  destruct (crdList api ns) as [err|items]; simpl.
  - rewrite IH. reflexivity.
  - rewrite forEach_update; simpl. rewrite IH.
    rewrite map_app, foldl_app, foldl_FromCRD. reflexivity.
Qed.

Lemma discoverAppsFromCRD_run m :
  discoverAppsFromCRD cfg api m
  = (crdFailure cfg api,
     foldl foldOne m (map FromCRD (listed (crdList api) (resolved cfg))),
     crdTrace cfg api).
Proof.
  unfold discoverAppsFromCRD, crdFailure, crdTrace, resolved, listAppVersions.
  case_bool_decide.
  - run. unfold listed; cbn [map mjoin list_join].
    destruct (crdList api "") as [err|items]; [done|].
    run. rewrite forEach_update; cbn [fst snd].
    by rewrite !app_nil_r, foldl_FromCRD.
  - run. rewrite crdNamespaces_run; cbn [fst snd]. by rewrite app_nil_r.
Qed.

Lemma listDeployments_any ns :
  (if bool_decide (ns = "") then listDeployments api "" else listDeployments api ns)
  = listDeployments api ns.
Proof. case_bool_decide; by subst. Qed.

Lemma listStatefulSets_any ns :
  (if bool_decide (ns = "") then listStatefulSets api "" else listStatefulSets api ns)
  = listStatefulSets api ns.
Proof. case_bool_decide; by subst. Qed.

Lemma discoverFromDeployments_run namespaces m :
  discoverFromDeployments api namespaces m
  = (firstFailure "failed to list deployments" (deploymentList api) namespaces,
     foldl foldOne m (map FromWorkload (visited (deploymentList api) namespaces)),
     map (EvList Deployments) (requested (deploymentList api) namespaces)).
Proof.
  revert m. induction namespaces as [|ns rest IH]; intros m; [done|].
  cbn [discoverFromDeployments firstFailure visited requested].
  rewrite listDeployments_any. unfold listDeployments. run.
  destruct (deploymentList api ns) as [err|items]; [done|].
  run. rewrite forEach_update; cbn [fst snd]. rewrite IH.
  by rewrite map_app, foldl_app, foldl_FromWorkload.
Qed.

Lemma discoverFromStatefulSets_run namespaces m :
  discoverFromStatefulSets api namespaces m
  = (firstFailure "failed to list statefulsets" (statefulSetList api) namespaces,
     foldl foldOne m (map FromWorkload (visited (statefulSetList api) namespaces)),
     map (EvList StatefulSets) (requested (statefulSetList api) namespaces)).
Proof.
  revert m. induction namespaces as [|ns rest IH]; intros m; [done|].
  cbn [discoverFromStatefulSets firstFailure visited requested].
  rewrite listStatefulSets_any. unfold listStatefulSets. run.
  destruct (statefulSetList api ns) as [err|items]; [done|].
  run. rewrite forEach_update; cbn [fst snd]. rewrite IH.
  by rewrite map_app, foldl_app, foldl_FromWorkload.
Qed.

Lemma workloadKind_run namespaces kind m :
  workloadKind api namespaces kind m
  = (tt,
     foldl foldOne m (map FromWorkload (kindItems api namespaces kind)),
     kindTrace api namespaces kind).
Proof.
  unfold workloadKind, kindItems, kindTrace.
  repeat case_bool_decide; try done.
  - rewrite bind_run, discoverFromDeployments_run.
    unfold resultOf, mapOf, traceOf; cbn [fst snd].
    destruct (firstFailure _ _ _); [by rewrite logLine_run|].
    by rewrite ret_run.
  - rewrite bind_run, discoverFromStatefulSets_run.
    unfold resultOf, mapOf, traceOf; cbn [fst snd].
    destruct (firstFailure _ _ _); [by rewrite logLine_run|].
    by rewrite ret_run.
Qed.

Lemma forEach_workloadKind namespaces kinds m :
  forEach kinds (workloadKind api namespaces) m
  = (tt,
     foldl foldOne m (map FromWorkload (mjoin (map (kindItems api namespaces) kinds))),
     mjoin (map (kindTrace api namespaces) kinds)).
Proof.
  revert m. induction kinds as [|kind kinds IH]; intros m; [done|].
  cbn [forEach]. rewrite bind_run, workloadKind_run.
  unfold resultOf, mapOf, traceOf; cbn [fst snd]. rewrite IH.
  cbn [map mjoin list_join]. by rewrite map_app, foldl_app.
Qed.

Lemma discoverAppsFromWorkloads_run m :
  discoverAppsFromWorkloads cfg api m
  = (None,
     foldl foldOne m
       (map FromWorkload (mjoin (map (kindItems api (resolved cfg)) (WorkloadKinds cfg)))),
     workloadTrace cfg api).
Proof.
  unfold discoverAppsFromWorkloads, workloadTrace.
  assert ((if bool_decide (NamespaceSelector cfg ≠ "")
           then parseNamespaceSelector (NamespaceSelector cfg) else [""])
          = resolved cfg) as ->.
  { unfold resolved. by repeat case_bool_decide. }
  run. rewrite forEach_workloadKind; cbn [fst snd]. by rewrite app_nil_r.
Qed.

End Runs.

(** ** One pass as a fold *)

(** The map and the events of a pass: the AppVersion objects of the CRD
    source are folded first, the workloads after them. *)
Lemma discoverAppsBody_run cfg api :
  discoverAppsBody cfg api ∅
  = (tt, foldAll (processed cfg api), crdPhase cfg api ++ workloadPhase cfg api).
Proof.
  unfold discoverAppsBody, foldAll, processed, processedCRD, processedWorkloads,
    crdPhase, workloadPhase.
  rewrite foldl_app.
  destruct (PreferCRD cfg), (FallbackWorkloads cfg && negb (CRDOnly cfg)).
  all: run.
  all: rewrite ?discoverAppsFromCRD_run, ?discoverAppsFromWorkloads_run; run.
  all: try destruct (crdFailure cfg api) as [e|]; run.
  all: rewrite ?discoverAppsFromWorkloads_run; run.
  all: try destruct (CRDOnly cfg); run.
  all: by rewrite ?app_nil_r.
Qed.

(** ** The fold rule *)

Lemma hasVariant_elem variants v : hasVariant variants v = bool_decide (v ∈ variants).
Proof.
  induction variants as [|x rest IH]; cbn [hasVariant].
  - symmetry. apply bool_decide_eq_false_2, not_elem_of_nil.
  - destruct (decide (x = v)) as [->|Hne].
    + rewrite (bool_decide_eq_true_2 (v = v)) by done.
      symmetry. apply bool_decide_eq_true_2. left.
    + rewrite (bool_decide_eq_false_2 (x = v)) by done.
      rewrite IH. apply bool_decide_ext. rewrite elem_of_cons. naive_solver.
Qed.

Lemma addVariant_elem variants v w : w ∈ addVariant variants v ↔ w ∈ variants ∨ w = v.
Proof.
  unfold addVariant. rewrite hasVariant_elem. case_bool_decide.
  - naive_solver.
  - rewrite elem_of_app, list_elem_of_singleton. naive_solver.
Qed.

Lemma firstSeen_elem vs v : v ∈ firstSeen vs ↔ v ∈ vs.
Proof.
  induction vs as [|x rest IH]; cbn [firstSeen]; [done|].
  rewrite !elem_of_cons, list_elem_of_filter, IH.
  destruct (decide (v = x)); naive_solver.
Qed.

Lemma firstSeen_NoDup vs : NoDup (firstSeen vs).
Proof.
  induction vs as [|x rest IH]; cbn [firstSeen]; [constructor|].
  constructor.
  - rewrite list_elem_of_filter. naive_solver.
  - by apply NoDup_filter.
Qed.

(** Appending a version that is absent, and only then, is what keeps the
    variants in first-seen order. *)
Lemma firstSeen_snoc vs v : firstSeen (vs ++ [v]) = addVariant (firstSeen vs) v.
Proof.
  induction vs as [|x rest IH]; [done|].
  cbn [app firstSeen]. rewrite IH. unfold addVariant.
  rewrite !hasVariant_elem.
  destruct (decide (v = x)) as [->|Hne].
  - rewrite (bool_decide_eq_true_2 (x ∈ x :: _)) by left.
    case_bool_decide; [done|].
    rewrite filter_app, filter_cons_False, filter_nil, app_nil_r; [done|].
    naive_solver.
  - assert (v ∈ x :: filter (λ y, y ≠ x) (firstSeen rest) ↔ v ∈ firstSeen rest) as Hiff.
    { rewrite elem_of_cons, list_elem_of_filter. naive_solver. }
    rewrite (bool_decide_ext _ _ Hiff).
    case_bool_decide; [done|].
    rewrite filter_app, filter_cons_True, filter_nil; done.
Qed.

Lemma foldOne_upsert m o :
  foldOne m o
  = match contributes o with
    | Some (name, version) => upsert (overwrites o) name version m
    | None => m
    end.
Proof.
  destruct o as [obj|w]; cbn [foldOne contributes overwrites].
  - unfold processAppVersionFromUnstructured, upsert.
    destruct (asObject (field "spec" obj)) as [spec|]; cbn; [|done].
    destruct (asString (field "name" spec)) as [name|]; cbn; [|done].
    by destruct (asString (field "version" spec)) as [version|]; cbn.
  - unfold processWorkloadLabels, upsert.
    set (n0 := label (Labels w) "app.kubernetes.io/name").
    set (v0 := label (Labels w) "app.kubernetes.io/version").
    cbn [fst].
    assert (match Containers w with
            | first :: _ =>
                if bool_decide (n0 = "") then parseImageTag (Image first) else (n0, v0)
            | [] => (n0, v0)
            end
            = if bool_decide (n0 = "")
              then match Containers w with
                   | first :: _ => parseImageTag (Image first)
                   | [] => (n0, v0)
                   end
              else (n0, v0)) as ->.
    { destruct (Containers w); by case_bool_decide. }
    destruct (if bool_decide (n0 = "") then _ else _) as [name version].
    by case_bool_decide.
Qed.

Lemma versionsOf_snoc name obs o :
  versionsOf name (obs ++ [o])
  = versionsOf name obs
    ++ match contributes o with
       | Some (n, v) => if bool_decide (n = name) then [v] else []
       | None => []
       end.
Proof.
  unfold versionsOf. rewrite omap_app. f_equal. cbn.
  destruct (contributes o) as [[n v]|]; [|done].
  by case_bool_decide.
Qed.

Lemma versionsOf_app name obs obs' :
  versionsOf name (obs ++ obs') = versionsOf name obs ++ versionsOf name obs'.
Proof. apply omap_app. Qed.

Lemma variantsInvariant_empty : variantsInvariant [] ∅.
Proof. intros name. by rewrite lookup_empty. Qed.

(** Both fold operations preserve the invariant. *)
Lemma foldOne_preserves obs m o :
  variantsInvariant obs m -> variantsInvariant (obs ++ [o]) (foldOne m o).
Proof.
  intros Hinv name. specialize (Hinv name) as Hname.
  rewrite foldOne_upsert, versionsOf_snoc.
  destruct (contributes o) as [[n v]|]; [|by rewrite app_nil_r].
  unfold upsert. case_bool_decide as Hn.
  - subst n. destruct (m !! name) as [a|] eqn:Hm.
    + rewrite lookup_insert_eq. cbn [Name Variants].
      destruct Hname as (Hname & Hne & Hvars).
      split; [done|]. split; [by destruct (versionsOf name obs)|].
      by rewrite firstSeen_snoc, Hvars.
    + rewrite lookup_insert_eq. cbn [Name Variants].
      rewrite Hname. by repeat split.
  - rewrite app_nil_r.
    destruct (m !! n) as [a|] eqn:Hm; by rewrite lookup_insert_ne.
Qed.

Lemma foldl_preserves obs m obs' :
  variantsInvariant obs m -> variantsInvariant (obs ++ obs') (foldl foldOne m obs').
Proof.
  revert obs m. induction obs' as [|o obs' IH]; intros obs m Hinv; cbn [foldl].
  - by rewrite app_nil_r.
  - replace (obs ++ o :: obs') with ((obs ++ [o]) ++ obs') by by rewrite <- app_assoc.
    apply IH. by apply foldOne_preserves.
Qed.

Lemma foldAll_invariant obs : variantsInvariant obs (foldAll obs).
Proof. apply (foldl_preserves [] ∅ obs), variantsInvariant_empty. Qed.

(** C4.  For every sequence of objects folded by either source, in any
    interleaving, and for every name: the map has no entry for a name no
    object supplied; otherwise the entry carries the name, its variants are
    exactly the versions supplied for that name, without a duplicate, in the
    order of their first occurrence.  ([foldOne_preserves] is the step: each
    of the two fold operations keeps the invariant; a discovery pass is such a
    fold by [discoverAppsBody_run].) *)
Theorem variants_first_seen (obs : list Observation) (name : string) :
  match foldAll obs !! name with
  | None => versionsOf name obs = []
  | Some a =>
      Name a = name
      ∧ (∀ v, v ∈ Variants a ↔ v ∈ versionsOf name obs)
      ∧ NoDup (Variants a)
      ∧ Variants a = firstSeen (versionsOf name obs)
  end.
Proof.
  pose proof (foldAll_invariant obs name) as H.
  destruct (foldAll obs !! name) as [a|]; [|done].
  destruct H as (Hname & _ & Hvars). rewrite Hvars.
  repeat split; try done.
  - by rewrite firstSeen_elem.
  - by rewrite firstSeen_elem.
  - apply firstSeen_NoDup.
Qed.

(** ** Which version becomes the primary one *)

Lemma foldAll_snoc obs o : foldAll (obs ++ [o]) = foldOne (foldAll obs) o.
Proof. unfold foldAll. by rewrite foldl_app. Qed.

(** The CRD fold overwrites: after AppVersion objects only, the version of
    an entry is the one of the last object that supplied its name. *)
Lemma crd_fold_version objs name a :
  foldAll (map FromCRD objs) !! name = Some a ->
  last (versionsOf name (map FromCRD objs)) = Some (Version a).
Proof.
  revert a. induction objs as [|obj objs IH] using rev_ind; intros a.
  - unfold foldAll; cbn. by rewrite lookup_empty.
  - rewrite map_app; cbn [map]. rewrite foldAll_snoc, versionsOf_snoc, foldOne_upsert.
    destruct (contributes (FromCRD obj)) as [[n v]|]; [|rewrite app_nil_r; apply IH].
    unfold upsert; cbn [overwrites]. case_bool_decide as Hn.
    + subst n. rewrite last_snoc.
      destruct (foldAll (map FromCRD objs) !! name);
        rewrite lookup_insert_eq; by intros [= <-].
    + rewrite app_nil_r.
      destruct (foldAll (map FromCRD objs) !! n);
        rewrite lookup_insert_ne by done; apply IH.
Qed.

(** The workload fold does not: the version of an entry that exists stays. *)
Lemma processWorkloadLabels_keeps_version labels containers m name a :
  m !! name = Some a ->
  ∃ a', processWorkloadLabels labels containers m !! name = Some a'
        ∧ Version a' = Version a.
Proof.
  intros Hm.
  change (processWorkloadLabels labels containers m)
    with (foldOne m (FromWorkload {| Labels := labels; Containers := containers |})).
  rewrite foldOne_upsert.
  destruct (contributes _) as [[n v]|]; [|by exists a].
  unfold upsert; cbn [overwrites].
  destruct (decide (n = name)) as [->|Hne].
  - rewrite Hm, lookup_insert_eq. by eexists.
  - destruct (m !! n); rewrite lookup_insert_ne by done; by exists a.
Qed.

Lemma workloads_keep_version ws m name a :
  m !! name = Some a ->
  ∃ a', foldl foldOne m (map FromWorkload ws) !! name = Some a'
        ∧ Version a' = Version a.
Proof.
  revert m a. induction ws as [|w ws IH]; intros m a Hm; cbn [map foldl].
  - by exists a.
  - destruct (processWorkloadLabels_keeps_version (Labels w) (Containers w) m name a Hm)
      as (a1 & Ha1 & Hv1).
    destruct (IH _ _ Ha1) as (a2 & Ha2 & Hv2).
    exists a2. split; [done|congruence].
Qed.

(** C1, as amended.  For every app name the CRD source supplies in a pass,
    the resulting entry has the version of the last AppVersion object
    processed for that name, whatever the workload source supplies afterwards:
    a workload entry for an existing name leaves the version as it is and
    only adds its own version to the variants. *)
Theorem crd_version_stays_primary (cfg : Config) (api : Cluster) (name : string) :
  versionsOf name (map FromCRD (processedCRD cfg api)) ≠ [] ->
  ∃ a, mapOf (discoverAppsBody cfg api ∅) !! name = Some a
       ∧ last (versionsOf name (map FromCRD (processedCRD cfg api))) = Some (Version a)
       ∧ Variants a = firstSeen (versionsOf name (processed cfg api)).
Proof.
  intros Hcrd. rewrite discoverAppsBody_run. unfold mapOf; cbn [fst snd].
  pose proof (foldAll_invariant (map FromCRD (processedCRD cfg api)) name) as Hinv.
  destruct (foldAll (map FromCRD (processedCRD cfg api)) !! name) as [a0|] eqn:Ha0;
    [|done].
  destruct (workloads_keep_version (processedWorkloads cfg api) _ name a0 Ha0)
    as (a & Ha & Hv).
  assert (foldAll (processed cfg api) !! name = Some a) as Hfinal.
  { unfold foldAll, processed. by rewrite foldl_app. }
  exists a. split; [done|]. split.
  - rewrite Hv. by apply crd_fold_version.
  - pose proof (foldAll_invariant (processed cfg api) name) as Hall.
    rewrite Hfinal in Hall. tauto.
Qed.

Lemma crd_version_stays_primary_witness :
  ∃ a, mapOf (discoverAppsBody defaultConfig exampleCluster ∅) !! "my-app" = Some a
       ∧ last (versionsOf "my-app" (map FromCRD (processedCRD defaultConfig exampleCluster)))
         = Some (Version a)
       ∧ Variants a
         = firstSeen (versionsOf "my-app" (processed defaultConfig exampleCluster)).
Proof.
  apply (crd_version_stays_primary defaultConfig exampleCluster "my-app").
  vm_compute. discriminate.
Defined.

(** C1, as the specification states it, fails on the worked example: the
    Deployment is processed last and supplies "0.9.0", the entry keeps the
    "1.0.0" of the AppVersion object. *)
Lemma last_source_wins_counterexample :
  ¬ lastProcessedWins defaultConfig exampleCluster "my-app".
Proof.
  intros H.
  specialize (H {| Name := "my-app"; Version := "1.0.0";
                   Variants := ["1.0.0"; "0.9.0"] |}).
  assert (last (versionsOf "my-app" (processed defaultConfig exampleCluster))
          = Some "0.9.0") as Hlast by (vm_compute; reflexivity).
  rewrite Hlast in H.
  assert (Some "0.9.0" = Some "1.0.0") as Habs; [|discriminate Habs].
  apply H. vm_compute. reflexivity.
Qed.

(** C2.  With the default flags (both sources enabled, the CRD source
    first), one AppVersion object "my-app" / "1.0.0" and one Deployment
    labelled "my-app" / "0.9.0": the pass returns exactly one app, named
    "my-app", with the version "1.0.0" and the variants "1.0.0", "0.9.0", and
    no error.  The map has that single entry, so the order in which Go ranges
    over it does not matter. *)
Theorem end_to_end_example :
  fst (discoverApps defaultConfig exampleCluster)
  = ([ {| Name := "my-app"; Version := "1.0.0"; Variants := ["1.0.0"; "0.9.0"] |} ],
     None)
  ∧ mapOf (discoverAppsBody defaultConfig exampleCluster ∅)
    = {[ "my-app" := {| Name := "my-app"; Version := "1.0.0";
                        Variants := ["1.0.0"; "0.9.0"] |} ]}
  ∧ snd (discoverApps defaultConfig exampleCluster)
    = [ EvCall DiscoverAppsFromCRD; EvList AppVersions "";
        EvCall DiscoverAppsFromWorkloads; EvList Deployments "";
        EvList StatefulSets "" ].
Proof. repeat split; vm_compute; reflexivity. Qed.

(** ** The merge policy *)

Lemma kindTrace_no_crd api namespaces kind e :
  e ∈ kindTrace api namespaces kind -> isCRDEvent e = false.
Proof.
  unfold kindTrace, failureLog.
  repeat case_bool_decide; rewrite ?elem_of_app, ?list_elem_of_fmap.
  - intros [(ns & -> & _)|He]; [done|].
    destruct (firstFailure _ _ _); [|by apply elem_of_nil in He].
    by apply list_elem_of_singleton in He as ->.
  - intros [(ns & -> & _)|He]; [done|].
    destruct (firstFailure _ _ _); [|by apply elem_of_nil in He].
    by apply list_elem_of_singleton in He as ->.
  - by intros ?%elem_of_nil.
Qed.

Lemma workloadTrace_no_crd cfg api e :
  e ∈ workloadTrace cfg api -> isCRDEvent e = false.
Proof.
  unfold workloadTrace. rewrite elem_of_cons, list_elem_of_join.
  intros [->|(t & He & Ht)]; [done|].
  apply list_elem_of_fmap in Ht as (kind & -> & _).
  by apply kindTrace_no_crd in He.
Qed.

Lemma workloadPhase_no_crd cfg api e :
  e ∈ workloadPhase cfg api -> isCRDEvent e = false.
Proof.
  unfold workloadPhase.
  destruct (FallbackWorkloads cfg && negb (CRDOnly cfg)).
  - apply workloadTrace_no_crd.
  - destruct (CRDOnly cfg).
    + by intros ->%list_elem_of_singleton.
    + by intros ?%elem_of_nil.
Qed.

Lemma crdTrace_no_workload cfg api e :
  e ∈ crdTrace cfg api -> isWorkloadEvent e = false.
Proof.
  unfold crdTrace. rewrite elem_of_cons. intros [->|He]; [done|].
  case_bool_decide.
  - by apply list_elem_of_singleton in He as ->.
  - apply list_elem_of_join in He as (t & He & Ht).
    apply list_elem_of_fmap in Ht as (ns & -> & _).
    unfold crdNamespaceTrace in He. apply elem_of_cons in He as [->|He]; [done|].
    destruct (crdList api ns); [|by apply elem_of_nil in He].
    by apply list_elem_of_singleton in He as ->.
Qed.

Lemma crdPhase_no_workload cfg api e :
  e ∈ crdPhase cfg api -> isWorkloadEvent e = false.
Proof.
  unfold crdPhase. destruct (PreferCRD cfg); [|by intros ?%elem_of_nil].
  rewrite elem_of_app. intros [He|He]; [by apply crdTrace_no_workload in He|].
  destruct (crdFailure cfg api); [|by apply elem_of_nil in He].
  by apply list_elem_of_singleton in He as ->.
Qed.

Lemma crdPhase_entered cfg api :
  EvCall DiscoverAppsFromCRD ∈ crdPhase cfg api ↔ PreferCRD cfg = true.
Proof.
  unfold crdPhase, crdTrace. destruct (PreferCRD cfg).
  - split; [done|]. intros _. apply elem_of_app. left. left.
  - split; [by intros ?%elem_of_nil|done].
Qed.

Lemma workloadPhase_entered cfg api :
  EvCall DiscoverAppsFromWorkloads ∈ workloadPhase cfg api
  ↔ FallbackWorkloads cfg = true ∧ CRDOnly cfg = false.
Proof.
  unfold workloadPhase, workloadTrace.
  destruct (FallbackWorkloads cfg), (CRDOnly cfg); cbn.
  - split; [|by intros [_ ?]]. by intros [=]%list_elem_of_singleton.
  - split; [done|]. intros _. left.
  - split; [|by intros [? _]]. by intros [=]%list_elem_of_singleton.
  - split; [by intros ?%elem_of_nil|by intros [? _]].
Qed.

Lemma parseNamespaceSelector_nonempty selector : parseNamespaceSelector selector ≠ [].
Proof.
  unfold parseNamespaceSelector. case_bool_decide; [done|].
  pose proof (Split_nonempty selector ",") as Hsplit.
  by destruct (Strings.Split selector ",").
Qed.

(** The CRD source sends at least one list request, and it is the only one
    to list AppVersions. *)
Lemma crdPhase_lists cfg api :
  (∃ ns, EvList AppVersions ns ∈ crdPhase cfg api) ↔ PreferCRD cfg = true.
Proof.
  unfold crdPhase, crdTrace. destruct (PreferCRD cfg).
  - split; [done|]. intros _. case_bool_decide.
    + exists "". apply elem_of_app. left. right. left.
    + pose proof (parseNamespaceSelector_nonempty (NamespaceSelector cfg)) as Hne.
      destruct (parseNamespaceSelector (NamespaceSelector cfg)) as [|ns rest]; [done|].
      exists ns. apply elem_of_app. left. right. cbn. left.
  - split; [|done]. by intros [ns ?%elem_of_nil].
Qed.

(** An event of the workload source shows that the source was enabled. *)
Lemma workload_events_flags cfg api e :
  e ∈ crdPhase cfg api ++ workloadPhase cfg api ->
  isWorkloadEvent e = true ->
  FallbackWorkloads cfg = true ∧ CRDOnly cfg = false.
Proof.
  intros [Hin|Hin]%elem_of_app He.
  - apply crdPhase_no_workload in Hin. congruence.
  - unfold workloadPhase in Hin.
    destruct (FallbackWorkloads cfg), (CRDOnly cfg); cbn in Hin; try done.
    + apply list_elem_of_singleton in Hin as ->. discriminate.
    + apply list_elem_of_singleton in Hin as ->. discriminate.
    + by apply elem_of_nil in Hin.
Qed.

(** In a trace made of two phases, what only the first phase emits comes
    before what only the second emits. *)
Lemma phases_in_order (P Q : Event -> bool) (t1 t2 : list Event) i j e e' :
  (∀ x, x ∈ t1 -> Q x = false) ->
  (∀ x, x ∈ t2 -> P x = false) ->
  (t1 ++ t2) !! i = Some e -> (t1 ++ t2) !! j = Some e' ->
  P e = true -> Q e' = true -> (i < j)%nat.
Proof.
  intros H1 H2 Hi Hj HP HQ.
  apply lookup_app_Some in Hi as [Hi|[Hi1 Hi2]].
  - apply lookup_app_Some in Hj as [Hj|[Hj1 Hj2]].
    + apply list_elem_of_lookup_2, H1 in Hj. congruence.
    + apply lookup_lt_Some in Hi. lia.
  - apply list_elem_of_lookup_2, H2 in Hi2. congruence.
Qed.

(** C5.  For every configuration and every cluster, one pass of
    [discoverApps]: enters the CRD source exactly when [preferCRD] is set;
    enters the workload source exactly when [fallbackWorkloads] is set and
    [crdOnly] is not; emits every event of the CRD source (its call, its list
    requests) before any event of the workload source, and folds the
    AppVersion objects before the workloads; logs a failure of the CRD source
    as a warning and goes on; returns no error. *)
Theorem merge_policy (cfg : Config) (api : Cluster) :
  let pass := discoverAppsBody cfg api ∅ in
  (EvCall DiscoverAppsFromCRD ∈ traceOf pass ↔ PreferCRD cfg = true)
  ∧ (EvCall DiscoverAppsFromWorkloads ∈ traceOf pass
     ↔ FallbackWorkloads cfg = true ∧ CRDOnly cfg = false)
  ∧ (∀ i j e e',
       traceOf pass !! i = Some e -> traceOf pass !! j = Some e' ->
       isCRDEvent e = true -> isWorkloadEvent e' = true -> (i < j)%nat)
  ∧ mapOf pass
    = foldl foldOne (foldl foldOne ∅ (map FromCRD (processedCRD cfg api)))
        (map FromWorkload (processedWorkloads cfg api))
  ∧ (∀ e, PreferCRD cfg = true ->
          resultOf (discoverAppsFromCRD cfg api ∅) = Some e ->
          EvLog Warn "CRD discovery failed, falling back to workloads" (Some e)
            ∈ traceOf pass)
  ∧ snd (fst (discoverApps cfg api)) = None
  ∧ ((∃ ns, EvList AppVersions ns ∈ traceOf pass) ↔ PreferCRD cfg = true)
  ∧ (∀ ns, EvList Deployments ns ∈ traceOf pass ∨ EvList StatefulSets ns ∈ traceOf pass ->
           FallbackWorkloads cfg = true ∧ CRDOnly cfg = false).
Proof.
  intros pass. subst pass. rewrite discoverAppsBody_run.
  unfold traceOf, mapOf; cbn [fst snd].
  split; [|split; [|split; [|split; [|split; [|split; [|split]]]]]].
  - rewrite elem_of_app, crdPhase_entered. split; [|tauto].
    intros [?|He]; [done|]. by apply workloadPhase_no_crd in He.
  - rewrite elem_of_app, workloadPhase_entered. split; [|tauto].
    intros [He|?]; [|done]. by apply crdPhase_no_workload in He.
  - intros i j e e'.
    apply (phases_in_order isCRDEvent isWorkloadEvent).
    + apply crdPhase_no_workload.
    + apply workloadPhase_no_crd.
  - unfold foldAll, processed. by rewrite foldl_app.
  - intros e Hpref. rewrite discoverAppsFromCRD_run. unfold resultOf; cbn [fst].
    intros Hfail. unfold crdPhase. rewrite Hpref, Hfail.
    rewrite !elem_of_app. left. right. left.
  - reflexivity.
  - rewrite <- crdPhase_lists. split.
    + intros [ns [Hin|Hin]%elem_of_app]; [by exists ns|].
      by apply workloadPhase_no_crd in Hin.
    + intros [ns Hin]. exists ns. apply elem_of_app. by left.
  - intros ns [Hin|Hin]; by apply (workload_events_flags cfg api _ Hin).
Qed.

(** ** A namespace whose list fails *)

(** The CRD source goes on after a namespace whose list fails. *)
Lemma crdNamespaces_skips_failure api ns rest m err :
  crdList api ns = inl err ->
  crdNamespaces api (ns :: rest) m
  = (tt,
     mapOf (crdNamespaces api rest m),
     EvList AppVersions ns
     :: EvLog Warn "Failed to list AppVersions in namespace" (Some err)
     :: traceOf (crdNamespaces api rest m)).
Proof.
  intros Herr. rewrite !crdNamespaces_run. unfold mapOf, traceOf; cbn [fst snd].
  unfold listed, crdNamespaceTrace; cbn [map mjoin list_join]. by rewrite Herr.
Qed.

(** The Deployment lister stops at it: the namespaces after it are not
    asked for. *)
Lemma discoverFromDeployments_stops api ns rest m err :
  deploymentList api ns = inl err ->
  discoverFromDeployments api (ns :: rest) m
  = (Some (Wrapped "failed to list deployments" err), m, [EvList Deployments ns]).
Proof.
  intros Herr. rewrite discoverFromDeployments_run.
  cbn [firstFailure visited requested]. by rewrite Herr.
Qed.

Lemma discoverFromStatefulSets_stops api ns rest m err :
  statefulSetList api ns = inl err ->
  discoverFromStatefulSets api (ns :: rest) m
  = (Some (Wrapped "failed to list statefulsets" err), m, [EvList StatefulSets ns]).
Proof.
  intros Herr. rewrite discoverFromStatefulSets_run.
  cbn [firstFailure visited requested]. by rewrite Herr.
Qed.

(** C6.  With the selector "a,b" and a cluster that refuses to list the
    Deployments of "a": the workload source logs the failure, never asks for
    the Deployments of "b" and so misses the app "web-b" deployed there; it
    does go on to the StatefulSets of both namespaces and keeps their
    entries.  The CRD source, on the same failure, skips "a" only and lists
    "b". *)
Theorem deployments_of_later_namespaces_skipped :
  discoverAppsFromWorkloads twoNamespaces refusingA ∅
  = (None,
     {[ "db-a" := {| Name := "db-a"; Version := "1.0"; Variants := ["1.0"] |};
        "db-b" := {| Name := "db-b"; Version := "1.0"; Variants := ["1.0"] |} ]},
     [ EvCall DiscoverAppsFromWorkloads;
       EvList Deployments "a";
       EvLog Error "Failed to discover from deployments"
         (Some (Wrapped "failed to list deployments" (ErrorString "forbidden")));
       EvList StatefulSets "a";
       EvList StatefulSets "b" ])
  ∧ (EvList Deployments "b"
       ∉ traceOf (discoverAppsFromWorkloads twoNamespaces refusingA ∅))
  ∧ mapOf (discoverAppsFromWorkloads twoNamespaces refusingA ∅) !! "web-b" = None
  ∧ deploymentList refusingA "b" = inr [labelled "web-b" "2.0"]
  ∧ discoverAppsFromCRD twoNamespaces refusingA ∅
    = (None,
       {[ "crd-b" := {| Name := "crd-b"; Version := "1.0"; Variants := ["1.0"] |} ]},
       [ EvCall DiscoverAppsFromCRD;
         EvList AppVersions "a";
         EvLog Warn "Failed to list AppVersions in namespace"
           (Some (ErrorString "forbidden"));
         EvList AppVersions "b" ]).
Proof.
  split; [vm_compute; reflexivity|].
  split; [apply (bool_decide_unpack _); vm_compute; exact I|].
  repeat split; vm_compute; reflexivity.
Qed.

(** ** Empty tokens in the namespace selector *)

Example parse_selector_gap : parseNamespaceSelector "a,,b" = ["a"; ""; "b"].
Proof. vm_compute. reflexivity. Qed.

Example parse_selector_trailing : parseNamespaceSelector "prod," = ["prod"; ""].
Proof. vm_compute. reflexivity. Qed.

Lemma parseNamespaceSelector_empty_token selector tok :
  selector ≠ "" ->
  tok ∈ Strings.Split selector "," ->
  Strings.TrimSpace tok = "" ->
  "" ∈ parseNamespaceSelector selector.
Proof.
  intros Hne Htok Htrim. unfold parseNamespaceSelector.
  rewrite bool_decide_eq_false_2 by done.
  apply list_elem_of_fmap. by exists tok.
Qed.

Section AllNamespaces.

Context {A : Type} (lister : string -> error + list A).
Context (before rest : list string).
Hypothesis before_succeed :
  ∀ ns, ns ∈ before -> ∃ items, lister ns = inr items.

(** Past namespaces whose lists succeed the lister goes on. *)
Lemma requested_after :
  requested lister (before ++ rest) = before ++ requested lister rest.
Proof using before_succeed.
  induction before as [|ns others IH]; [done|].
  cbn [app requested]. destruct (before_succeed ns) as [items ->]; [left|].
  rewrite IH; [done|]. intros ns' Hin. apply before_succeed. by right.
Qed.

Lemma visited_after :
  visited lister (before ++ rest) = visited lister before ++ visited lister rest.
Proof using before_succeed.
  induction before as [|ns others IH]; [done|].
  cbn [app visited]. destruct (before_succeed ns) as [items ->]; [left|].
  rewrite IH, app_assoc; [done|]. intros ns' Hin. apply before_succeed. by right.
Qed.

End AllNamespaces.

(** The lister reaches an empty element that only namespaces whose lists
    succeed precede: it asks for all namespaces, and what that list returns
    is handed over, whatever the namespaces after it answer. *)
Lemma requested_sentinel {A} (lister : string -> error + list A) before after :
  (∀ ns, ns ∈ before -> ∃ items, lister ns = inr items) ->
  "" ∈ requested lister (before ++ "" :: after).
Proof.
  intros Hok. rewrite requested_after by done.
  apply elem_of_app. right. left.
Qed.

Lemma visited_sentinel {A} (lister : string -> error + list A) before after items w :
  (∀ ns, ns ∈ before -> ∃ items, lister ns = inr items) ->
  lister "" = inr items -> w ∈ items ->
  w ∈ visited lister (before ++ "" :: after).
Proof.
  intros Hok Hall Hw. rewrite visited_after by done.
  apply elem_of_app. right. cbn [visited]. rewrite Hall.
  apply elem_of_app. by left.
Qed.

(** Folding never drops what an earlier object supplied. *)
Lemma foldOne_keeps m o name version a :
  m !! name = Some a -> version ∈ Variants a ->
  ∃ a', foldOne m o !! name = Some a' ∧ version ∈ Variants a'.
Proof.
  intros Hm Hv. rewrite foldOne_upsert.
  destruct (contributes o) as [[n v]|]; [|by exists a].
  unfold upsert. destruct (decide (n = name)) as [->|Hne].
  - rewrite Hm, lookup_insert_eq. eexists. split; [done|].
    cbn [Variants]. apply addVariant_elem. by left.
  - destruct (m !! n); rewrite lookup_insert_ne by done; by exists a.
Qed.

Lemma foldOne_supplies m o name version :
  contributes o = Some (name, version) ->
  ∃ a, foldOne m o !! name = Some a ∧ version ∈ Variants a.
Proof.
  intros Hc. rewrite foldOne_upsert, Hc. unfold upsert.
  destruct (m !! name) as [a|]; rewrite lookup_insert_eq; eexists; (split; [done|]).
  - cbn [Variants]. apply addVariant_elem. by right.
  - cbn [Variants]. left.
Qed.

Lemma foldl_supplies obs m o name version :
  o ∈ obs -> contributes o = Some (name, version) ->
  ∃ a, foldl foldOne m obs !! name = Some a ∧ version ∈ Variants a.
Proof.
  intros Hin Hc.
  assert (∀ obs m a, m !! name = Some a -> version ∈ Variants a ->
            ∃ a', foldl foldOne m obs !! name = Some a' ∧ version ∈ Variants a')
    as Hkeep.
  { clear. induction obs as [|o obs IH]; intros m a Hm Hv; cbn [foldl].
    - by exists a.
    - destruct (foldOne_keeps m o name version a Hm Hv) as (a1 & Ha1 & Hv1).
      by apply (IH _ a1). }
  revert m. induction obs as [|o' obs IH]; intros m; [by apply elem_of_nil in Hin|].
  cbn [foldl]. apply elem_of_cons in Hin as [<-|Hin].
  - destruct (foldOne_supplies m o name version Hc) as (a & Ha & Hv).
    by apply (Hkeep _ _ a).
  - by apply IH.
Qed.

(** C10, as amended.  For every non-empty namespace selector one of whose
    comma-separated tokens is empty after trimming: the parsed namespace list
    contains the empty string; and, for each of the kinds "Deployment" and
    "StatefulSet" that is configured, when the lists of that kind succeed for
    the namespaces that come before an empty element, the workload source
    sends the list of that kind for the namespace [""], that is across all
    namespaces, and folds every workload that list returns, from whatever
    namespace; what the namespaces after the empty element answer does not
    matter. *)
Theorem empty_token_lists_all_namespaces (cfg : Config) (api : Cluster)
    (m : gmap string App) :
  NamespaceSelector cfg ≠ "" ->
  (∃ tok, tok ∈ Strings.Split (NamespaceSelector cfg) ","
          ∧ Strings.TrimSpace tok = "") ->
  let namespaces := parseNamespaceSelector (NamespaceSelector cfg) in
  let run := discoverAppsFromWorkloads cfg api m in
  "" ∈ namespaces
  ∧ (∃ before after, namespaces = before ++ "" :: after ∧ "" ∉ before)
  ∧ ∀ before after,
      namespaces = before ++ "" :: after ->
      ("Deployment" ∈ WorkloadKinds cfg ->
       (∀ ns, ns ∈ before -> ∃ items, deploymentList api ns = inr items) ->
       EvList Deployments "" ∈ traceOf run
       ∧ ∀ items w name version,
           deploymentList api "" = inr items -> w ∈ items ->
           contributes (FromWorkload w) = Some (name, version) ->
           ∃ a, mapOf run !! name = Some a ∧ version ∈ Variants a)
      ∧ ("StatefulSet" ∈ WorkloadKinds cfg ->
         (∀ ns, ns ∈ before -> ∃ items, statefulSetList api ns = inr items) ->
         EvList StatefulSets "" ∈ traceOf run
         ∧ ∀ items w name version,
             statefulSetList api "" = inr items -> w ∈ items ->
             contributes (FromWorkload w) = Some (name, version) ->
             ∃ a, mapOf run !! name = Some a ∧ version ∈ Variants a).
Proof.
  intros Hne (tok & Htok & Htrim) namespaces run.
  assert ("" ∈ namespaces) as Hsentinel
    by exact (parseNamespaceSelector_empty_token _ tok Hne Htok Htrim).
  assert (resolved cfg = namespaces) as Hres.
  { unfold resolved. by rewrite bool_decide_eq_false_2. }
  subst run. rewrite discoverAppsFromWorkloads_run.
  unfold traceOf, mapOf, workloadTrace; cbn [fst snd]. rewrite Hres.
  split; [done|]. split; [by apply list_elem_of_split_l|].
  intros before after Hsplit. rewrite Hsplit. split.
  - intros Hkind Hok. split.
    + right. apply list_elem_of_join.
      exists (kindTrace api (before ++ "" :: after) "Deployment").
      split; [|apply list_elem_of_fmap; by exists "Deployment"].
      unfold kindTrace. rewrite bool_decide_eq_true_2 by done.
      apply elem_of_app. left. apply list_elem_of_fmap. exists "".
      split; [done|]. by apply requested_sentinel.
    + intros items w name version Hall Hw Hc.
      apply (foldl_supplies _ _ (FromWorkload w)); [|done].
      apply list_elem_of_fmap. exists w. split; [done|].
      apply list_elem_of_join.
      exists (kindItems api (before ++ "" :: after) "Deployment").
      split; [|apply list_elem_of_fmap; by exists "Deployment"].
      unfold kindItems. rewrite bool_decide_eq_true_2 by done.
      by apply (visited_sentinel _ _ _ items).
  - intros Hkind Hok. split.
    + right. apply list_elem_of_join.
      exists (kindTrace api (before ++ "" :: after) "StatefulSet").
      split; [|apply list_elem_of_fmap; by exists "StatefulSet"].
      unfold kindTrace. rewrite bool_decide_eq_false_2 by done.
      rewrite bool_decide_eq_true_2 by done.
      apply elem_of_app. left. apply list_elem_of_fmap. exists "".
      split; [done|]. by apply requested_sentinel.
    + intros items w name version Hall Hw Hc.
      apply (foldl_supplies _ _ (FromWorkload w)); [|done].
      apply list_elem_of_fmap. exists w. split; [done|].
      apply list_elem_of_join.
      exists (kindItems api (before ++ "" :: after) "StatefulSet").
      split; [|apply list_elem_of_fmap; by exists "StatefulSet"].
      unfold kindItems. rewrite bool_decide_eq_false_2 by done.
      rewrite bool_decide_eq_true_2 by done.
      by apply (visited_sentinel _ _ _ items).
Qed.

Lemma empty_token_lists_all_namespaces_witness :
  "" ∈ parseNamespaceSelector "a,,b"
  ∧ EvList Deployments ""
      ∈ traceOf (discoverAppsFromWorkloads emptyToken (refusingWorkloadsOf "b") ∅)
  ∧ ∃ a, mapOf (discoverAppsFromWorkloads emptyToken (refusingWorkloadsOf "b") ∅)
           !! "my-app" = Some a
         ∧ "0.9.0" ∈ Variants a.
Proof.
  destruct (empty_token_lists_all_namespaces emptyToken (refusingWorkloadsOf "b") ∅)
    as (Hparsed & _ & Hsent).
  - discriminate.
  - exists "". split; [|vm_compute; reflexivity].
    right. left.
  - split; [exact Hparsed|].
    destruct (Hsent ["a"] ["b"]) as [Hdeployments _]; [vm_compute; reflexivity|].
    destruct Hdeployments as (Hcall & Hfold).
    + left.
    + intros ns ->%list_elem_of_singleton. by exists [myDeployment].
    + split; [exact Hcall|].
      apply (Hfold [myDeployment] myDeployment); [reflexivity|left|].
      vm_compute. reflexivity.
Defined.

(** C10, as the specification states it, fails when a namespace named
    before the empty token refuses its lists: with the selector "a,,b", both
    kinds configured and the lists of "a" failing, the parsed list holds the
    empty string but each lister returns at "a", and no list across all
    namespaces is sent. *)
Lemma empty_token_counterexample :
  NamespaceSelector emptyToken ≠ ""
  ∧ "" ∈ Strings.Split (NamespaceSelector emptyToken) ","
  ∧ Strings.TrimSpace "" = ""
  ∧ "" ∈ parseNamespaceSelector (NamespaceSelector emptyToken)
  ∧ "Deployment" ∈ WorkloadKinds emptyToken
  ∧ "StatefulSet" ∈ WorkloadKinds emptyToken
  ∧ traceOf (discoverAppsFromWorkloads emptyToken (refusingWorkloadsOf "a") ∅)
    = [ EvCall DiscoverAppsFromWorkloads;
        EvList Deployments "a";
        EvLog Error "Failed to discover from deployments"
          (Some (Wrapped "failed to list deployments" (ErrorString "forbidden")));
        EvList StatefulSets "a";
        EvLog Error "Failed to discover from statefulsets"
          (Some (Wrapped "failed to list statefulsets" (ErrorString "forbidden"))) ]
  ∧ (EvList Deployments ""
       ∉ traceOf (discoverAppsFromWorkloads emptyToken (refusingWorkloadsOf "a") ∅))
  ∧ (EvList StatefulSets ""
       ∉ traceOf (discoverAppsFromWorkloads emptyToken (refusingWorkloadsOf "a") ∅)).
Proof.
  split; [discriminate|]. split; [right; left|]. split; [vm_compute; reflexivity|].
  split; [vm_compute; right; left|]. split; [left|]. split; [right; left|].
  split; [vm_compute; reflexivity|].
  split; apply (bool_decide_unpack _); vm_compute; exact I.
Qed.

(** * Further properties of the code *)

(** ** Node discovery *)

Lemma taintRole_cases taints :
  taintRole taints = "control-plane" ∨ taintRole taints = "worker".
Proof.
  induction taints as [|t rest IH]; cbn [taintRole]; [by right|].
  destruct (_ && _); [by left|done].
Qed.

Lemma taintRole_control_plane taints :
  taintRole taints = "control-plane"
  ↔ ∃ t, t ∈ taints
         ∧ (Strings.Contains (TaintKey t) "control-plane" = true
            ∨ Strings.Contains (TaintKey t) "master" = true)
         ∧ TaintEffect t = "NoSchedule".
Proof.
  induction taints as [|t rest IH]; cbn [taintRole].
  - split; [discriminate|]. by intros (t & ?%elem_of_nil & _).
  - destruct ((Strings.Contains (TaintKey t) "control-plane"
               || Strings.Contains (TaintKey t) "master")
              && bool_decide (TaintEffect t = "NoSchedule")) eqn:Hmatch.
    + split; [|done]. intros _. exists t.
      apply andb_prop in Hmatch as [Hkey Heff].
      apply orb_prop in Hkey. apply bool_decide_eq_true_1 in Heff.
      split; [left|done].
    + rewrite IH. split.
      * intros (t' & Hin & Hrest). exists t'. split; [by right|done].
      * intros (t' & [->|Hin]%elem_of_cons & Hkey & Heff); [|by exists t'].
        apply andb_false_iff in Hmatch as [Hno|Hno].
        -- apply orb_false_iff in Hno as [H1 H2]. destruct Hkey; congruence.
        -- by apply bool_decide_eq_false_1 in Hno.
Qed.

(** X1.  [getNodeRole] answers "control-plane" or "worker" and nothing else;
    it answers "control-plane" exactly when the node carries the label
    [node-role.kubernetes.io/control-plane] or [node-role.kubernetes.io/master]
    (whatever its value), or one of its taints has the effect "NoSchedule" and
    a key that contains "control-plane" or "master". *)
Theorem getNodeRole_characterised (node : K8sNode) :
  (getNodeRole node = "control-plane" ∨ getNodeRole node = "worker")
  ∧ (getNodeRole node = "control-plane"
     ↔ is_Some (NodeLabels node !! "node-role.kubernetes.io/control-plane")
       ∨ is_Some (NodeLabels node !! "node-role.kubernetes.io/master")
       ∨ ∃ t, t ∈ Taints node
              ∧ (Strings.Contains (TaintKey t) "control-plane" = true
                 ∨ Strings.Contains (TaintKey t) "master" = true)
              ∧ TaintEffect t = "NoSchedule").
Proof.
  unfold getNodeRole. repeat case_bool_decide.
  - split; [by left|]. split; [by left|done].
  - split; [by left|]. split; [by right; left|done].
  - split; [apply taintRole_cases|].
    rewrite taintRole_control_plane. split; [by right; right|].
    by intros [?|[?|?]].
Qed.

(** X2.  [getNodeInternalIP] answers the address of the first entry of type
    "InternalIP", whatever follows it, and the empty string when the node has
    no such entry. *)
Theorem getNodeInternalIP_first (before after : list NodeAddress) (addr : NodeAddress) :
  (∀ a, a ∈ before -> AddressType a ≠ "InternalIP") ->
  (AddressType addr = "InternalIP" ->
     getNodeInternalIP (before ++ addr :: after) = Address addr)
  ∧ getNodeInternalIP before = "".
Proof.
  intros Hbefore. induction before as [|a rest IH]; cbn [app getNodeInternalIP].
  - split; [|done]. intros Htype. by rewrite bool_decide_eq_true_2.
  - rewrite bool_decide_eq_false_2 by (apply Hbefore; left).
    apply IH. intros a' Hin. apply Hbefore. by right.
Qed.

Lemma getNodeInternalIP_first_witness :
  getNodeInternalIP
    [ {| AddressType := "Hostname"; Address := "node-1" |};
      {| AddressType := "ExternalIP"; Address := "203.0.113.7" |};
      {| AddressType := "InternalIP"; Address := "10.0.1.100" |};
      {| AddressType := "InternalIP"; Address := "10.0.1.101" |} ] = "10.0.1.100"
  ∧ getNodeInternalIP
      [ {| AddressType := "Hostname"; Address := "node-1" |};
        {| AddressType := "ExternalIP"; Address := "203.0.113.7" |} ] = "".
Proof.
  destruct (getNodeInternalIP_first
              [ {| AddressType := "Hostname"; Address := "node-1" |};
                {| AddressType := "ExternalIP"; Address := "203.0.113.7" |} ]
              [ {| AddressType := "InternalIP"; Address := "10.0.1.101" |} ]
              {| AddressType := "InternalIP"; Address := "10.0.1.100" |})
    as [Hfirst Hnone].
  - intros a Hin.
    apply elem_of_cons in Hin as [->|Hin]; [discriminate|].
    apply list_elem_of_singleton in Hin as ->. discriminate.
  - split; [exact (Hfirst eq_refl)|exact Hnone].
Defined.

(** ** What a fold leaves in the map *)

Lemma foldOne_version_in m o :
  (∀ name a, m !! name = Some a -> Version a ∈ Variants a) ->
  ∀ name a, foldOne m o !! name = Some a -> Version a ∈ Variants a.
Proof.
  intros Hm name a. rewrite foldOne_upsert.
  destruct (contributes o) as [[n v]|]; [|apply Hm].
  unfold upsert. destruct (m !! n) as [a0|] eqn:Hn.
  - destruct (decide (n = name)) as [->|Hne].
    + rewrite lookup_insert_eq. intros [= <-]. cbn [Version Variants].
      apply addVariant_elem. destruct (overwrites o); [by right|].
      left. by apply (Hm name).
    + rewrite lookup_insert_ne by done. apply Hm.
  - destruct (decide (n = name)) as [->|Hne].
    + rewrite lookup_insert_eq. intros [= <-]. cbn [Version Variants]. left.
    + rewrite lookup_insert_ne by done. apply Hm.
Qed.

Lemma foldAll_version_in obs name a :
  foldAll obs !! name = Some a -> Version a ∈ Variants a.
Proof.
  revert name a. induction obs as [|o obs IH] using rev_ind; intros name a.
  - unfold foldAll; cbn. by rewrite lookup_empty.
  - rewrite foldAll_snoc. by apply foldOne_version_in.
Qed.

Lemma versionsOf_filter_nil (P : Observation -> Prop) `{∀ o, Decision (P o)} name obs :
  versionsOf name obs = [] -> versionsOf name (filter P obs) = [].
Proof.
  induction obs as [|o obs IH]; [done|].
  change (o :: obs) with ([o] ++ obs). rewrite versionsOf_app.
  intros [Ho Hobs]%app_eq_nil. rewrite filter_app, versionsOf_app, (IH Hobs), app_nil_r.
  destruct (decide (P o)).
  - by rewrite filter_cons_True.
  - by rewrite filter_cons_False.
Qed.

Lemma versionsOf_one name o :
  versionsOf name [o]
  = match contributes o with
    | Some (n, v) => if bool_decide (n = name) then [v] else []
    | None => []
    end.
Proof. exact (versionsOf_snoc name [] o). Qed.

Lemma foldAll_primary obs name a :
  foldAll obs !! name = Some a -> primaryOf name obs = Some (Version a).
Proof.
  revert a. induction obs as [|o obs IH] using rev_ind; intros a.
  { unfold foldAll; cbn. by rewrite lookup_empty. }
  pose proof (foldAll_invariant obs name) as Hinv.
  rewrite foldAll_snoc, foldOne_upsert. unfold primaryOf.
  rewrite filter_app, !versionsOf_app, !versionsOf_one.
  assert (versionsOf name (filter (λ o0, overwrites o0 = true) [o])
          = if overwrites o then versionsOf name [o] else []) as ->.
  { destruct (overwrites o) eqn:Ho.
    - by rewrite filter_cons_True.
    - rewrite filter_cons_False; [done|]. by rewrite Ho. }
  rewrite versionsOf_one.
  destruct (contributes o) as [[n v]|].
  2:{ destruct (overwrites o); rewrite !app_nil_r; apply IH. }
  case_bool_decide as Hn.
  2:{ unfold upsert.
      destruct (overwrites o); rewrite !app_nil_r;
        (destruct (foldAll obs !! n); rewrite lookup_insert_ne by done; apply IH). }
  subst n. unfold upsert.
  destruct (foldAll obs !! name) as [a0|] eqn:Ha0; rewrite lookup_insert_eq;
    intros [= <-]; cbn [Version].
  - destruct (overwrites o); [by rewrite last_snoc|].
    rewrite app_nil_r. specialize (IH a0 eq_refl). unfold primaryOf in IH.
    destruct (last _); [done|].
    destruct Hinv as (_ & Hne & _). by destruct (versionsOf name obs).
  - rewrite Hinv, (versionsOf_filter_nil _ name obs Hinv).
    by destruct (overwrites o).
Qed.

(** X3.  For every sequence of objects folded by either source, in any
    interleaving: the version of an entry is the one the last AppVersion
    object supplied for its name; when no AppVersion object supplied the name,
    it is the one the first workload supplied. *)
Theorem primary_version_characterised (obs : list Observation) (name : string) (a : App) :
  foldAll obs !! name = Some a ->
  primaryOf name obs = Some (Version a).
Proof. apply foldAll_primary. Qed.

Lemma primary_version_characterised_witness :
  primaryOf "my-app" [FromWorkload (labelled "my-app" "0.8.0");
                      FromCRD (appVersionObject "my-app" "1.0.0");
                      FromWorkload myDeployment]
  = Some (Version {| Name := "my-app"; Version := "1.0.0";
                     Variants := ["0.8.0"; "1.0.0"; "0.9.0"] |}).
Proof.
  apply (primary_version_characterised
           [FromWorkload (labelled "my-app" "0.8.0");
            FromCRD (appVersionObject "my-app" "1.0.0");
            FromWorkload myDeployment] "my-app").
  vm_compute. reflexivity.
Defined.

Lemma firstSeen_app_seen vs ws :
  (∀ w, w ∈ ws -> w ∈ vs) -> firstSeen (vs ++ ws) = firstSeen vs.
Proof.
  induction ws as [|w ws IH] using rev_ind; intros Hsub; [by rewrite app_nil_r|].
  rewrite app_assoc, firstSeen_snoc, IH.
  - unfold addVariant. rewrite hasVariant_elem, bool_decide_eq_true_2; [done|].
    apply firstSeen_elem, Hsub, elem_of_app. right. left.
  - intros w' Hin. apply Hsub, elem_of_app. by left.
Qed.

Lemma last_app_twice {A} (l k : list A) : last (l ++ k ++ k) = last (l ++ k).
Proof.
  destruct k as [|x k] using rev_ind; [done|].
  by rewrite !app_assoc, !last_snoc.
Qed.

Lemma head_app_twice {A} (l k : list A) : head (l ++ k ++ k) = head (l ++ k).
Proof. destruct l; [|done]. by destruct k. Qed.

(** X4.  Folding a batch of objects twice in a row leaves the map that
    folding it once leaves: listing the same namespace again, or meeting the
    same objects through a list over all namespaces, changes no entry. *)
Theorem refolding_changes_nothing (before batch after : list Observation) :
  foldAll (before ++ batch ++ batch ++ after) = foldAll (before ++ batch ++ after).
Proof.
  assert (foldAll (before ++ batch ++ batch) = foldAll (before ++ batch)) as Hbatch.
  { apply map_eq. intros name.
    pose proof (foldAll_invariant (before ++ batch ++ batch) name) as H2.
    pose proof (foldAll_invariant (before ++ batch) name) as H1.
    repeat rewrite versionsOf_app in H1. repeat rewrite versionsOf_app in H2.
    destruct (foldAll (before ++ batch ++ batch) !! name) as [a2|] eqn:Ha2,
             (foldAll (before ++ batch) !! name) as [a1|] eqn:Ha1.
    - destruct H1 as (Hn1 & _ & Hv1), H2 as (Hn2 & _ & Hv2).
      apply foldAll_primary in Ha1, Ha2. unfold primaryOf in Ha1, Ha2.
      repeat rewrite filter_app in Ha1. repeat rewrite versionsOf_app in Ha1.
      repeat rewrite filter_app in Ha2. repeat rewrite versionsOf_app in Ha2.
      rewrite last_app_twice, head_app_twice, Ha1 in Ha2.
      rewrite app_assoc, firstSeen_app_seen in Hv2.
      2:{ intros w Hw. apply elem_of_app. by right. }
      destruct a1, a2; cbn in *. congruence.
    - destruct H2 as (_ & Hne & _).
      apply app_eq_nil in H1 as [Hb Hc]. by rewrite Hb, Hc in Hne.
    - destruct H1 as (_ & Hne & _).
      apply app_eq_nil in H2 as [Hb [Hc _]%app_eq_nil]. by rewrite Hb, Hc in Hne.
    - done. }
  unfold foldAll in *.
  replace (before ++ batch ++ batch ++ after)
    with ((before ++ batch ++ batch) ++ after) by (by rewrite <- !app_assoc).
  replace (before ++ batch ++ after)
    with ((before ++ batch) ++ after) by (by rewrite <- !app_assoc).
  by rewrite (foldl_app _ (before ++ batch ++ batch)),
       (foldl_app _ (before ++ batch)), Hbatch.
Qed.

(** ** What a pass returns *)

Lemma discoverApps_slice cfg api a :
  a ∈ fst (fst (discoverApps cfg api))
  ↔ ∃ name, foldAll (processed cfg api) !! name = Some a.
Proof.
  unfold discoverApps. rewrite discoverAppsBody_run. unfold mapOf; cbn [fst snd].
  rewrite list_elem_of_fmap. split.
  - intros ([name a'] & -> & Hin). exists name. by apply elem_of_map_to_list.
  - intros (name & Hin). exists (name, a). split; [done|].
    by apply elem_of_map_to_list.
Qed.

(** X5.  In the slice [discoverApps] returns no two apps have the same
    name; every app has its version among its variants, and its variants are
    without a duplicate. *)
Theorem discoverApps_well_formed (cfg : Config) (api : Cluster) :
  let apps := fst (fst (discoverApps cfg api)) in
  NoDup (map Name apps)
  ∧ ∀ a, a ∈ apps -> Version a ∈ Variants a ∧ NoDup (Variants a).
Proof.
  intros apps. split.
  - subst apps. unfold discoverApps. rewrite discoverAppsBody_run.
    unfold mapOf; cbn [fst snd].
    assert (map Name (map snd (map_to_list (foldAll (processed cfg api))))
            = map fst (map_to_list (foldAll (processed cfg api)))) as ->.
    { rewrite map_map. apply map_ext_in. intros [name a] Hin%list_elem_of_In.
      apply elem_of_map_to_list in Hin.
      pose proof (foldAll_invariant (processed cfg api) name) as Hinv.
      rewrite Hin in Hinv. cbn. tauto. }
    apply (NoDup_fst_map_to_list (foldAll (processed cfg api))).
  - intros a (name & Ha)%discoverApps_slice. split.
    + by apply (foldAll_version_in (processed cfg api) name).
    + pose proof (foldAll_invariant (processed cfg api) name) as Hinv.
      rewrite Ha in Hinv. destruct Hinv as (_ & _ & ->). apply firstSeen_NoDup.
Qed.

(** ** The refresh *)

(** X6.  [refreshCache] fails exactly when the node list fails, and then
    it leaves the cache as it was and asks for nothing else; when the node
    list succeeds it installs a snapshot, whatever the two app sources
    answer. *)
Theorem refreshCache_fails_only_on_nodes (cfg : Config) (api : Cluster)
    (stamp updated : Z) (c : ClusterCache) :
  match nodeList api with
  | inl err =>
      refreshCache cfg api stamp updated c
      = (Some (Wrapped "failed to discover nodes" (Wrapped "failed to list nodes" err)),
         c,
         [EvLog Debug "Refreshing cache" None; EvListNodes 0])
  | inr _ =>
      fst (fst (refreshCache cfg api stamp updated c)) = None
      ∧ is_Some (Data (snd (fst (refreshCache cfg api stamp updated c))))
      ∧ UpdatedAt (snd (fst (refreshCache cfg api stamp updated c))) = updated
  end.
Proof.
  unfold refreshCache, discoverNodes.
  destruct (nodeList api) as [err|items]; [done|].
  unfold discoverApps. cbn. by repeat split.
Qed.

(** X7.  A snapshot installed by [refreshCache] is what [GetClusterInfo]
    returns as long as its age does not exceed the TTL: the nodes and the apps
    that were discovered, under the schema version, with the time of the
    request as timestamp. *)
Theorem refresh_then_get (cfg : Config) (api : Cluster) (stamp updated : Z)
    (c : ClusterCache) (now stamp' : Z) (nodes : list Node) :
  fst (discoverNodes api) = inr nodes ->
  time_Since now updated <= TTL c ->
  GetClusterInfo now stamp' (snd (fst (refreshCache cfg api stamp updated c)))
  = ({| APIVersion := "reflector.grid.sce.com/v1";
        Timestamp := stamp';
        Nodes := nodes;
        Apps := fst (fst (discoverApps cfg api)) |}, []).
Proof.
  intros Hnodes Hage. unfold refreshCache.
  destruct (discoverNodes api) as [[err|nodes'] t1]; cbn in Hnodes; [done|].
  injection Hnodes as ->.
  unfold discoverApps. cbn [fst snd].
  unfold GetClusterInfo, IsExpired. cbn [Data UpdatedAt TTL].
  by rewrite bool_decide_eq_false_2 by lia.
Qed.

Lemma refresh_then_get_witness :
  GetClusterInfo 5000000000 5000000001
    (snd (fst (refreshCache defaultConfig exampleCluster 1000 1001
                 (newCache defaultConfig))))
  = ({| APIVersion := "reflector.grid.sce.com/v1";
        Timestamp := 5000000001;
        Nodes := [ {| NodeName := "node-1"; NodeIP := "10.0.1.100";
                      NodeRole := "control-plane"; NodeVersion := "v1.28.4" |} ];
        Apps := fst (fst (discoverApps defaultConfig exampleCluster)) |}, []).
Proof.
  apply (refresh_then_get defaultConfig exampleCluster 1000 1001
           (newCache defaultConfig) 5000000000 5000000001).
  - reflexivity.
  - vm_compute. discriminate.
Defined.

(** X8.  With the TTL of the cache being the configured one, not negative
    and below 2^62 ns, and a connectivity probe that succeeds: whenever the
    age of the cache is within the TTL, [HealthCheck] reports healthy; and for
    an age above the TTL and up to twice the TTL, [HealthCheck] still reports
    healthy while [GetClusterInfo] already returns the empty placeholder. *)
Theorem healthy_while_placeholder (cfg : Config) (api : Cluster) (now stamp : Z)
    (c : ClusterCache) :
  TTL c = CacheTTL cfg ->
  0 <= CacheTTL cfg < 2 ^ 62 ->
  nodeProbe api = None ->
  let age := time_Since now (UpdatedAt c) in
  (age <= CacheTTL cfg -> fst (HealthCheck cfg api now c) = None)
  ∧ (CacheTTL cfg < age <= 2 * CacheTTL cfg ->
     fst (HealthCheck cfg api now c) = None
     ∧ fst (GetClusterInfo now stamp c)
       = {| APIVersion := "reflector.grid.sce.com/v1";
            Timestamp := stamp; Nodes := []; Apps := [] |}).
Proof.
  intros Httl Hrange Hprobe age.
  rewrite HealthCheck_cases, Hprobe, Duration_double by lia. fold age.
  split; [intros Hage|intros [Hlo Hhi]].
  - by rewrite bool_decide_eq_false_2 by lia.
  - split; [by rewrite bool_decide_eq_false_2 by lia|].
    unfold GetClusterInfo, IsExpired. destruct (Data c); [|done].
    fold age. rewrite Httl. by rewrite bool_decide_eq_true_2 by lia.
Qed.

Lemma healthy_while_placeholder_witness :
  fst (HealthCheck defaultConfig exampleCluster 15000000000 freshCache) = None
  ∧ fst (GetClusterInfo 15000000000 15000000001 freshCache)
    = {| APIVersion := "reflector.grid.sce.com/v1";
         Timestamp := 15000000001; Nodes := []; Apps := [] |}.
Proof.
  apply (healthy_while_placeholder defaultConfig exampleCluster
           15000000000 15000000001 freshCache).
  - reflexivity.
  - vm_compute. split; [discriminate|reflexivity].
  - reflexivity.
  - vm_compute. split; [reflexivity|discriminate].
Defined.

(** ** The sources, one by one *)

(** X9.  Under a configuration [validateConfig] accepts, the CRD-only mode
    makes a pass of CRD discovery alone: the CRD source is entered, no
    Deployment or StatefulSet list is sent, the skip is logged at debug level,
    and the map holds what the AppVersion objects supplied and nothing else. *)
Theorem crd_only_pass (cfg : Config) (api : Cluster) :
  validateConfig cfg = None ->
  CRDOnly cfg = true ->
  let pass := discoverAppsBody cfg api ∅ in
  EvCall DiscoverAppsFromCRD ∈ traceOf pass
  ∧ (∀ e, e ∈ traceOf pass -> isWorkloadEvent e = false)
  ∧ last (traceOf pass)
    = Some (EvLog Debug "CRD-only mode enabled, skipping workload discovery" None)
  ∧ mapOf pass = foldAll (map FromCRD (listed (crdList api) (resolved cfg))).
Proof.
  intros Hvalid Honly pass. subst pass.
  unfold validateConfig in Hvalid. rewrite Honly in Hvalid. destruct (PreferCRD cfg) eqn:Hprefer; [|done].
  rewrite discoverAppsBody_run. unfold traceOf, mapOf; cbn [fst snd].
  unfold workloadPhase, processed, processedCRD, processedWorkloads.
  rewrite Honly, Hprefer, andb_false_r. cbn [map]. rewrite app_nil_r.
  split; [|split; [|split]].
  - apply elem_of_app. left. by apply crdPhase_entered.
  - intros e [He|He]%elem_of_app; [by apply crdPhase_no_workload in He|].
    by apply list_elem_of_singleton in He as ->.
  - apply last_snoc.
  - done.
Qed.

Lemma crd_only_pass_witness :
  EvCall DiscoverAppsFromCRD
    ∈ traceOf (discoverAppsBody
                 {| CacheTTL := 10; NamespaceSelector := "a,b"; PreferCRD := true;
                    FallbackWorkloads := true; CRDOnly := true;
                    WorkloadKinds := ["Deployment"] |} refusingA ∅)
  ∧ mapOf (discoverAppsBody
             {| CacheTTL := 10; NamespaceSelector := "a,b"; PreferCRD := true;
                FallbackWorkloads := true; CRDOnly := true;
                WorkloadKinds := ["Deployment"] |} refusingA ∅)
    = {[ "crd-b" := {| Name := "crd-b"; Version := "1.0"; Variants := ["1.0"] |} ]}.
Proof.
  destruct (crd_only_pass
              {| CacheTTL := 10; NamespaceSelector := "a,b"; PreferCRD := true;
                 FallbackWorkloads := true; CRDOnly := true;
                 WorkloadKinds := ["Deployment"] |} refusingA)
    as (Hcall & _ & _ & Hmap); [reflexivity|reflexivity|].
  split; [exact Hcall|]. rewrite Hmap. vm_compute. reflexivity.
Defined.

Lemma kindItems_unknown api namespaces kind :
  knownKind kind = false -> kindItems api namespaces kind = [].
Proof.
  unfold knownKind, kindItems. intros [H1 H2]%orb_false_iff. by rewrite H1, H2.
Qed.

Lemma kindTrace_unknown api namespaces kind :
  knownKind kind = false -> kindTrace api namespaces kind = [].
Proof.
  unfold knownKind, kindTrace. intros [H1 H2]%orb_false_iff. by rewrite H1, H2.
Qed.

Lemma mjoin_filter_known {A} (f : string -> list A) kinds :
  (∀ kind, knownKind kind = false -> f kind = []) ->
  mjoin (map f (filter (λ kind, knownKind kind = true) kinds)) = mjoin (map f kinds).
Proof.
  intros Hf. induction kinds as [|kind kinds IH]; [done|].
  destruct (knownKind kind) eqn:Hk.
  - rewrite filter_cons_True by done. cbn [map].
    change (f kind ++ mjoin (map f (filter (λ kind, knownKind kind = true) kinds))
            = f kind ++ mjoin (map f kinds)).
    by rewrite IH.
  - rewrite filter_cons_False by (by rewrite Hk). cbn [map].
    change (mjoin (map f (filter (λ kind, knownKind kind = true) kinds))
            = f kind ++ mjoin (map f kinds)).
    by rewrite IH, (Hf kind Hk).
Qed.

(** X10.  A workload kind other than "Deployment" and "StatefulSet", such
    as "DaemonSet" or "deployment", is passed over in silence: the workload
    source returns the same error, the same map and the same events as with
    the list of kinds reduced to the two it knows. *)
Theorem unknown_kinds_ignored (cfg : Config) (api : Cluster) (m : gmap string App) :
  discoverAppsFromWorkloads cfg api m
  = discoverAppsFromWorkloads
      (withKinds cfg (filter (λ kind, knownKind kind = true) (WorkloadKinds cfg))) api m.
Proof.
  rewrite !discoverAppsFromWorkloads_run. unfold workloadTrace, resolved, withKinds.
  cbn [NamespaceSelector WorkloadKinds].
  rewrite (mjoin_filter_known (kindItems api _)) by apply kindItems_unknown.
  by rewrite (mjoin_filter_known (kindTrace api _)) by apply kindTrace_unknown.
Qed.

Lemma listed_elem {A} (lister : string -> error + list A) namespaces ns items x :
  ns ∈ namespaces -> lister ns = inr items -> x ∈ items ->
  x ∈ listed lister namespaces.
Proof.
  intros Hns Hok Hx. unfold listed. apply list_elem_of_join.
  exists items. split; [done|]. apply list_elem_of_fmap. exists ns.
  by rewrite Hok.
Qed.

(** X11.  With a namespace selector, the CRD source never returns an
    error, and a namespace whose list fails costs only its own objects: every
    AppVersion object of every namespace whose list succeeds is folded, its
    name has an entry and its version is among the variants. *)
Theorem crd_namespace_failures_are_local (cfg : Config) (api : Cluster)
    (m : gmap string App) :
  NamespaceSelector cfg ≠ "" ->
  let run := discoverAppsFromCRD cfg api m in
  resultOf run = None
  ∧ ∀ ns items obj name version,
      ns ∈ parseNamespaceSelector (NamespaceSelector cfg) ->
      crdList api ns = inr items -> obj ∈ items ->
      contributes (FromCRD obj) = Some (name, version) ->
      ∃ a, mapOf run !! name = Some a ∧ version ∈ Variants a.
Proof.
  intros Hsel run. subst run. rewrite discoverAppsFromCRD_run.
  unfold resultOf, mapOf, crdFailure, resolved; cbn [fst snd].
  rewrite !bool_decide_eq_false_2 by done. split; [done|].
  intros ns items obj name version Hns Hok Hobj Hc.
  apply (foldl_supplies _ _ (FromCRD obj)); [|done].
  apply list_elem_of_fmap. exists obj. split; [done|].
  by apply (listed_elem _ _ ns items).
Qed.

Lemma crd_namespace_failures_are_local_witness :
  resultOf (discoverAppsFromCRD twoNamespaces refusingA ∅) = None
  ∧ ∃ a, mapOf (discoverAppsFromCRD twoNamespaces refusingA ∅) !! "crd-b" = Some a
         ∧ "1.0" ∈ Variants a.
Proof.
  destruct (crd_namespace_failures_are_local twoNamespaces refusingA ∅)
    as [Hok Hfold]; [discriminate|].
  split; [exact Hok|].
  apply (Hfold "b" [appVersionObject "crd-b" "1.0"] (appVersionObject "crd-b" "1.0")).
  - right. left.
  - reflexivity.
  - left.
  - reflexivity.
Defined.

(** X12.  A workload whose name label is set is folded by its labels
    alone: its containers are not looked at, and when its version label is
    absent or empty the version is "unknown", whatever tag its image carries.
    A workload without a name label and without a container changes
    nothing. *)
Theorem labels_take_precedence (labels : gmap string string)
    (containers : list Container) (m : gmap string App) :
  (label labels "app.kubernetes.io/name" ≠ "" ->
     processWorkloadLabels labels containers m = processWorkloadLabels labels [] m
     ∧ (label labels "app.kubernetes.io/version" = "" ->
        m !! label labels "app.kubernetes.io/name" = None ->
        processWorkloadLabels labels containers m
        = <[label labels "app.kubernetes.io/name" :=
              {| Name := label labels "app.kubernetes.io/name";
                 Version := "unknown";
                 Variants := ["unknown"] |}]> m))
  ∧ (label labels "app.kubernetes.io/name" = "" ->
     processWorkloadLabels labels [] m = m).
Proof.
  unfold processWorkloadLabels. split.
  - intros Hname. split.
    + destruct containers; [done|].
      by repeat (rewrite bool_decide_eq_false_2 by exact Hname).
    + intros Hversion Hnew.
      destruct containers; repeat (rewrite bool_decide_eq_false_2 by exact Hname);
        by rewrite Hnew, Hversion.
  - intros Hname. by rewrite bool_decide_eq_true_2.
Qed.

(** ** The refresh loop *)

(** X13.  When the node list fails at start-up, [Start] returns the error
    of the initial refresh, wrapped, without creating its ticker: the cache is
    left as it was, no signal is served and no app source is asked. *)
Theorem Start_initial_failure (cfg : Config) (api : Cluster) (stamp updated : Z)
    (signals : list Signal) (c : ClusterCache) (err : error) :
  nodeList api = inl err ->
  Start cfg api stamp updated signals c
  = (Returned (Some (Wrapped "failed initial cache refresh"
                       (Wrapped "failed to discover nodes"
                          (Wrapped "failed to list nodes" err)))),
     c,
     [ EvLog Info "Starting cluster discovery" None;
       EvLog Info "Discovery configuration" None;
       EvLog Debug "Refreshing cache" None;
       EvListNodes 0 ]).
Proof.
  intros Herr. unfold Start, refreshCache, discoverNodes. by rewrite Herr.
Qed.

Lemma Start_initial_failure_witness :
  Start defaultConfig unreachable 1000 1001
    [TickerFired exampleCluster 2000 2001] (newCache defaultConfig)
  = (Returned (Some (Wrapped "failed initial cache refresh"
                       (Wrapped "failed to discover nodes"
                          (Wrapped "failed to list nodes" (ErrorString "timeout"))))),
     newCache defaultConfig,
     [ EvLog Info "Starting cluster discovery" None;
       EvLog Info "Discovery configuration" None;
       EvLog Debug "Refreshing cache" None;
       EvListNodes 0 ]).
Proof.
  apply (Start_initial_failure defaultConfig unreachable 1000 1001
           [TickerFired exampleCluster 2000 2001] (newCache defaultConfig)).
  reflexivity.
Defined.

Lemma half_not_positive d : Z.quot d 2 <= 0 ↔ d <= 1.
Proof.
  destruct (Z.le_gt_cases 0 d) as [Hpos|Hneg].
  - rewrite Z.quot_div_nonneg by lia. split; intros H.
    + destruct (Z.le_gt_cases d 1) as [?|Hgt]; [done|].
      assert (1 <= d / 2) by (apply Z.div_le_lower_bound; lia). lia.
    + assert (d / 2 < 1) by (apply Z.div_lt_upper_bound; lia). lia.
  - split; [lia|]. intros _.
    rewrite <- (Z.opp_involutive d), Z.quot_opp_l by lia.
    assert (0 <= Z.quot (- d) 2) by (apply Z.quot_pos; lia). lia.
Qed.

(** X14.  When the initial refresh succeeds and the configured TTL is at
    most one nanosecond, zero and negative values included, the period of the
    ticker, half the TTL, is not positive: [Start] panics in [time.NewTicker]
    and serves no signal.  With a TTL of two nanoseconds or more it enters its
    loop. *)
Theorem Start_needs_ticker_period (cfg : Config) (api : Cluster) (stamp updated : Z)
    (signals : list Signal) (c : ClusterCache) (items : list K8sNode) :
  nodeList api = inr items ->
  let installed := snd (fst (refreshCache cfg api stamp updated c)) in
  (CacheTTL cfg <= 1 ->
     fst (Start cfg api stamp updated signals c) = (Panicked, installed))
  ∧ (1 < CacheTTL cfg ->
     fst (Start cfg api stamp updated signals c)
     = fst (serveSignals cfg signals installed)).
Proof.
  intros Hnodes installed. subst installed.
  unfold Start, refreshCache, discoverNodes, discoverApps. rewrite Hnodes.
  cbn [fst snd]. split; intros Httl.
  - by rewrite bool_decide_eq_true_2 by by apply half_not_positive.
  - rewrite bool_decide_eq_false_2 by (rewrite half_not_positive; lia).
    by destruct (serveSignals _ _ _) as [[o c'] t].
Qed.

Lemma Start_needs_ticker_period_witness :
  fst (fst (Start (withKinds
                     {| CacheTTL := 1; NamespaceSelector := ""; PreferCRD := true;
                        FallbackWorkloads := true; CRDOnly := false;
                        WorkloadKinds := [] |} ["Deployment"])
              exampleCluster 1000 1001 [CtxDone] (newCache defaultConfig)))
  = Panicked
  ∧ fst (fst (Start defaultConfig exampleCluster 1000 1001 [CtxDone]
                (newCache defaultConfig)))
    = Returned None.
Proof.
  split.
  - destruct (Start_needs_ticker_period
                (withKinds
                   {| CacheTTL := 1; NamespaceSelector := ""; PreferCRD := true;
                      FallbackWorkloads := true; CRDOnly := false;
                      WorkloadKinds := [] |} ["Deployment"])
                exampleCluster 1000 1001 [CtxDone] (newCache defaultConfig)
                [controlPlaneNode]) as [Hpanic _]; [reflexivity|].
    rewrite Hpanic; [reflexivity|]. vm_compute. discriminate.
  - destruct (Start_needs_ticker_period defaultConfig exampleCluster 1000 1001
                [CtxDone] (newCache defaultConfig) [controlPlaneNode])
      as [_ Hloop]; [reflexivity|].
    rewrite Hloop; [reflexivity|]. vm_compute. reflexivity.
Defined.

(** X15.  A tick whose refresh fails is not fatal: the failure is logged,
    the cache keeps the snapshot it had, and the loop serves the signals that
    follow as if the tick had not happened. *)
Theorem failed_tick_keeps_snapshot (cfg : Config) (api : Cluster) (stamp updated : Z)
    (rest : list Signal) (c : ClusterCache) (err : error) :
  nodeList api = inl err ->
  serveSignals cfg (TickerFired api stamp updated :: rest) c
  = (fst (fst (serveSignals cfg rest c)),
     snd (fst (serveSignals cfg rest c)),
     [ EvLog Debug "Refreshing cache" None;
       EvListNodes 0;
       EvLog Error "Failed to refresh cache"
         (Some (Wrapped "failed to discover nodes" (Wrapped "failed to list nodes" err))) ]
     ++ snd (serveSignals cfg rest c)).
Proof.
  intros Herr. cbn [serveSignals].
  unfold refreshCache, discoverNodes. rewrite Herr. cbn [fst snd].
  by destruct (serveSignals cfg rest c) as [[o c'] t].
Qed.

Lemma failed_tick_keeps_snapshot_witness :
  snd (fst (serveSignals defaultConfig [TickerFired unreachable 2000 2001] freshCache))
  = freshCache.
Proof.
  rewrite (failed_tick_keeps_snapshot defaultConfig unreachable 2000 2001 []
             freshCache (ErrorString "timeout")); reflexivity.
Defined.

Lemma refreshCache_keeps_data cfg api stamp updated c :
  is_Some (Data c) ->
  is_Some (Data (snd (fst (refreshCache cfg api stamp updated c))))
  ∧ TTL (snd (fst (refreshCache cfg api stamp updated c))) = TTL c.
Proof.
  intros Hc. unfold refreshCache, discoverNodes, discoverApps.
  destruct (nodeList api); cbn; [done|]. by split.
Qed.

Lemma serveSignals_keeps_data cfg signals c :
  is_Some (Data c) ->
  is_Some (Data (snd (fst (serveSignals cfg signals c))))
  ∧ TTL (snd (fst (serveSignals cfg signals c))) = TTL c.
Proof.
  revert c. induction signals as [|signal rest IH]; intros c Hc; [done|].
  destruct signal as [| |api stamp updated]; [done|done|].
  cbn [serveSignals].
  destruct (refreshCache_keeps_data cfg api stamp updated c Hc) as [Hdata Httl].
  destruct (refreshCache cfg api stamp updated c) as [[err c'] t]. cbn [fst snd] in *.
  specialize (IH c' Hdata).
  destruct (serveSignals cfg rest c') as [[o c''] t']. cbn [fst snd] in *.
  destruct IH. split; [done|congruence].
Qed.

(** X16.  Unless its initial refresh fails, in which case it leaves the
    cache as it found it, [Start] always leaves a snapshot in the cache,
    whatever signals it served and however many of their refreshes failed; it
    never changes the TTL of the cache. *)
Theorem Start_leaves_a_snapshot (cfg : Config) (api : Cluster) (stamp updated : Z)
    (signals : list Signal) (c : ClusterCache) :
  let final := snd (fst (Start cfg api stamp updated signals c)) in
  TTL final = TTL c
  ∧ match nodeList api with
    | inl _ => final = c
    | inr _ => is_Some (Data final)
    end.
Proof.
  intros final. subst final. unfold Start, refreshCache, discoverNodes, discoverApps.
  destruct (nodeList api) as [err|items]; cbn [fst snd]; [done|].
  case_bool_decide; cbn [fst snd]; [by split|].
  match goal with
  | |- context [serveSignals cfg signals ?c'] =>
      pose proof (serveSignals_keeps_data cfg signals c') as Hkeep;
      destruct (serveSignals cfg signals c') as [[o c''] t]
  end.
  cbn [fst snd Data TTL] in *. destruct Hkeep as [Hdata Httl]; [done|]. by split.
Qed.

(** ** The metrics *)

Lemma countRoles_spec nodes cp w :
  countRoles nodes cp w
  = (cp + Z.of_nat (length (filter (λ node, NodeRole node = "control-plane") nodes)),
     w + (Z.of_nat (length nodes)
          - Z.of_nat (length (filter (λ node, NodeRole node = "control-plane") nodes)))).
Proof.
  revert cp w. induction nodes as [|node rest IH]; intros cp w; cbn [countRoles].
  - cbn. f_equal; lia.
  - case_bool_decide as Hrole.
    + rewrite IH, filter_cons_True by done. cbn [length]. f_equal; lia.
    + rewrite IH, filter_cons_False by done. cbn [length]. f_equal; lia.
Qed.

(** X18.  In the body [handleMetrics] writes, the gauge of control-plane
    nodes is the number of nodes whose role is "control-plane", and the gauge
    of worker nodes is the number of all the other nodes: the two add up to
    the gauge of nodes. *)
Theorem metrics_roles_add_up (info : ClusterInfo) :
  let total := Z.of_nat (length (Nodes info)) in
  let controlPlane :=
    Z.of_nat (length (filter (λ node, NodeRole node = "control-plane") (Nodes info))) in
  metricsBody info
  = gauge "cluster_reflector_nodes_total" "Total number of nodes in the cluster" total
    +:+ gauge "cluster_reflector_apps_total" "Total number of discovered applications"
          (Z.of_nat (length (Apps info)))
    +:+ gauge "cluster_reflector_control_plane_nodes"
          "Total number of control plane nodes" controlPlane
    +:+ gauge "cluster_reflector_worker_nodes" "Total number of worker nodes"
          (total - controlPlane).
Proof.
  intros total controlPlane. unfold metricsBody.
  rewrite countRoles_spec. fold total controlPlane.
  by rewrite !Z.add_0_l.
Qed.

(** X19.  When the cache holds no snapshot, or one whose age exceeds the
    TTL, [handleMetrics] reports zero nodes, zero apps, zero control-plane
    nodes and zero workers. *)
Theorem metrics_of_expired_cache (now stamp : Z) (c : ClusterCache) :
  Data c = None ∨ time_Since now (UpdatedAt c) > TTL c ->
  handleMetrics now stamp c
  = ("text/plain; charset=utf-8",
     gauge "cluster_reflector_nodes_total" "Total number of nodes in the cluster" 0
     +:+ gauge "cluster_reflector_apps_total" "Total number of discovered applications" 0
     +:+ gauge "cluster_reflector_control_plane_nodes"
           "Total number of control plane nodes" 0
     +:+ gauge "cluster_reflector_worker_nodes" "Total number of worker nodes" 0).
Proof.
  intros Hexpired. unfold handleMetrics, GetClusterInfo, IsExpired.
  destruct (Data c) as [data|]; [|reflexivity].
  destruct Hexpired as [?|Hage]; [done|].
  by rewrite bool_decide_eq_true_2.
Qed.

Lemma metrics_of_expired_cache_witness :
  snd (handleMetrics 2000 2001 expiredCache)
  = "# HELP cluster_reflector_nodes_total Total number of nodes in the cluster" +:+ newline
    +:+ "# TYPE cluster_reflector_nodes_total gauge" +:+ newline
    +:+ "cluster_reflector_nodes_total 0" +:+ newline
    +:+ "# HELP cluster_reflector_apps_total Total number of discovered applications" +:+ newline
    +:+ "# TYPE cluster_reflector_apps_total gauge" +:+ newline
    +:+ "cluster_reflector_apps_total 0" +:+ newline
    +:+ "# HELP cluster_reflector_control_plane_nodes Total number of control plane nodes" +:+ newline
    +:+ "# TYPE cluster_reflector_control_plane_nodes gauge" +:+ newline
    +:+ "cluster_reflector_control_plane_nodes 0" +:+ newline
    +:+ "# HELP cluster_reflector_worker_nodes Total number of worker nodes" +:+ newline
    +:+ "# TYPE cluster_reflector_worker_nodes gauge" +:+ newline
    +:+ "cluster_reflector_worker_nodes 0" +:+ newline.
Proof.
  rewrite (metrics_of_expired_cache 2000 2001 expiredCache).
  - vm_compute. reflexivity.
  - right. vm_compute. reflexivity.
Defined.

(** ** Parsing image references and selectors *)

Lemma Contains_char_nil c : Strings.Contains "" (String c "") = false.
Proof. reflexivity. Qed.

Lemma Contains_char_cons a s c :
  Strings.Contains (String a s) (String c "")
  = bool_decide (a = c) || Strings.Contains s (String c "").
Proof.
  cbn [Strings.Contains String.prefix].
  destruct (ascii_dec c a) as [->|Hne].
  - rewrite bool_decide_eq_true_2 by done. by destruct s.
  - by rewrite bool_decide_eq_false_2 by congruence.
Qed.

Lemma Contains_char_app s t c :
  Strings.Contains (s +:+ t) (String c "")
  = Strings.Contains s (String c "") || Strings.Contains t (String c "").
Proof.
  induction s as [|a s IH]; [done|].
  change (String a s +:+ t) with (String a (s +:+ t)).
  by rewrite !Contains_char_cons, IH, orb_assoc.
Qed.

Lemma append_empty s : s +:+ "" = s.
Proof.
  induction s as [|a s IH]; [done|].
  change (String a s +:+ "") with (String a (s +:+ "")). by rewrite IH.
Qed.

Lemma eqb_bool_decide (a c : ascii) : Ascii.eqb a c = bool_decide (a = c).
Proof.
  destruct (Ascii.eqb_spec a c).
  - by rewrite bool_decide_eq_true_2.
  - by rewrite bool_decide_eq_false_2.
Qed.

Lemma Split_without_sep s sep :
  Strings.Contains s (String sep "") = false -> Strings.Split s sep = [s].
Proof.
  induction s as [|a s IH]; [done|].
  rewrite Contains_char_cons. intros [Ha Hs]%orb_false_iff.
  cbn [Strings.Split]. rewrite eqb_bool_decide, Ha. by rewrite (IH Hs).
Qed.

Lemma Split_app s t sep :
  Strings.Split (s +:+ String sep t) sep = Strings.Split s sep ++ Strings.Split t sep.
Proof.
  induction s as [|a s IH].
  - change ("" +:+ String sep t) with (String sep t).
    cbn [Strings.Split app]. by rewrite Ascii.eqb_refl.
  - change (String a s +:+ String sep t) with (String a (s +:+ String sep t)).
    cbn [Strings.Split]. rewrite IH. destruct (Ascii.eqb a sep); [done|].
    pose proof (Split_nonempty s sep). by destruct (Strings.Split s sep).
Qed.

Lemma Split_pieces s sep c piece :
  piece ∈ Strings.Split s sep ->
  Strings.Contains piece (String sep "") = false
  ∧ (Strings.Contains s (String c "") = false ->
     Strings.Contains piece (String c "") = false).
Proof.
  revert piece. induction s as [|a s IH]; intros piece.
  - by intros ->%list_elem_of_singleton.
  - cbn [Strings.Split]. rewrite Contains_char_cons, eqb_bool_decide.
    pose proof (Split_nonempty s sep) as Hne.
    destruct (Strings.Split s sep) as [|first others]; [done|].
    case_bool_decide as Ha.
    + intros [->|Hin]%elem_of_cons; [split; [done|]; by intros _|].
      destruct (IH piece Hin) as [H1 H2]. split; [done|].
      by intros [_ ?]%orb_false_iff; apply H2.
    + intros [->|Hin]%elem_of_cons.
      * destruct (IH first) as [H1 H2]; [left|].
        rewrite !Contains_char_cons, (bool_decide_eq_false_2 _ Ha), H1.
        split; [done|]. intros [-> ?]%orb_false_iff. by rewrite H2.
      * destruct (IH piece) as [H1 H2]; [by right|]. split; [done|].
        by intros [_ ?]%orb_false_iff; apply H2.
Qed.

Lemma hd_Split_app s t sep :
  Strings.Contains s (String sep "") = false ->
  hd "" (Strings.Split (s +:+ t) sep) = s +:+ hd "" (Strings.Split t sep).
Proof.
  induction s as [|a s IH]; [done|].
  rewrite Contains_char_cons. intros [Ha Hs]%orb_false_iff.
  change (String a s +:+ t) with (String a (s +:+ t)).
  cbn [Strings.Split]. rewrite eqb_bool_decide, Ha.
  specialize (IH Hs). pose proof (Split_nonempty (s +:+ t) sep).
  destruct (Strings.Split (s +:+ t) sep); [done|]. cbn in *. by rewrite IH.
Qed.

Lemma last_Split_app s t sep :
  last (Strings.Split (s +:+ String sep t) sep) = last (Strings.Split t sep).
Proof.
  rewrite Split_app, last_app.
  pose proof (Split_nonempty t sep). by destruct (last (Strings.Split t sep)) eqn:Hl;
    [|apply last_None in Hl].
Qed.

(** X20.  Neither the name nor the version [parseImageTag] returns
    contains a slash or a colon, and the version contains no "@": whatever the
    image reference, the separators do not leak into the result. *)
Theorem parseImageTag_strips_separators (image : string) :
  let name := fst (parseImageTag image) in
  let version := snd (parseImageTag image) in
  Strings.Contains name "/" = false
  ∧ Strings.Contains name ":" = false
  ∧ Strings.Contains version "/" = false
  ∧ Strings.Contains version ":" = false
  ∧ Strings.Contains version "@" = false.
Proof.
  cbv zeta. unfold parseImageTag. cbv zeta.
  pose proof (Split_nonempty image "/") as Hparts.
  destruct (last (Strings.Split image "/")) as [imageName|] eqn:Hlast;
    [|by apply last_None in Hlast].
  assert (Strings.Contains imageName "/" = false) as Hslash.
  { apply last_Some_elem_of in Hlast.
    by destruct (Split_pieces image "/" "/" imageName Hlast). }
  change (default "" (Some imageName)) with imageName.
  pose proof (Split_pieces imageName ":" "/") as Hpiece.
  pose proof (Split_nonempty imageName ":") as Hne.
  destruct (Strings.Split imageName ":") as [|name [|tag rest]]; [done| |].
  - destruct (Hpiece name) as [H1 H2]; [left|]. cbn. repeat split; auto.
  - destruct (Hpiece name) as [Hn1 Hn2]; [left|].
    destruct (Hpiece tag) as [Ht1 Ht2]; [right; left|].
    destruct (Strings.Contains tag "@") eqn:Hat; cbn [fst snd].
    + pose proof (Split_nonempty tag "@") as Hsplit.
      destruct (Strings.Split tag "@") as [|version others] eqn:Hv; [done|].
      cbn [hd].
      assert (version ∈ Strings.Split tag "@") as Hin by (rewrite Hv; left).
      destruct (Split_pieces tag "@" "/" version Hin) as [Hv1 Hv2].
      destruct (Split_pieces tag "@" ":" version Hin) as [_ Hv3].
      repeat split; auto.
    + repeat split; auto.
Qed.

(** X21.  An image reference built from a registry path, a name, a tag
    and a digest parses back to the name and the tag, provided the name holds
    no slash or colon, the tag no slash, colon or "@", and the digest no
    slash; the registry path may hold slashes and a port.  Without a tag the
    version is "latest". *)
Theorem parseImageTag_round_trip (registry name tag digest : string) :
  Strings.Contains name "/" = false ->
  Strings.Contains name ":" = false ->
  Strings.Contains tag "/" = false ->
  Strings.Contains tag ":" = false ->
  Strings.Contains tag "@" = false ->
  Strings.Contains digest "/" = false ->
  parseImageTag (registry +:+ "/" +:+ name +:+ ":" +:+ tag) = (name, tag)
  ∧ parseImageTag (name +:+ ":" +:+ tag) = (name, tag)
  ∧ parseImageTag (registry +:+ "/" +:+ name +:+ ":" +:+ tag +:+ "@" +:+ digest)
    = (name, tag)
  ∧ parseImageTag (registry +:+ "/" +:+ name) = (name, "latest").
Proof.
  intros Hn1 Hn2 Ht1 Ht2 Ht3 Hd.
  assert (∀ rest, Strings.Contains rest "/" = false ->
            default "" (last (Strings.Split (registry +:+ "/" +:+ rest) "/")) = rest)
    as Hregistry.
  { intros rest Hrest.
    change (registry +:+ "/" +:+ rest) with (registry +:+ String "/" rest).
    by rewrite last_Split_app, Split_without_sep. }
  assert (∀ rest, Strings.Contains rest "/" = false ->
            default "" (last (Strings.Split rest "/")) = rest) as Hbare.
  { intros rest Hrest. by rewrite Split_without_sep. }
  assert (Strings.Split (name +:+ ":" +:+ tag) ":" = [name; tag]) as Htagged.
  { change (name +:+ ":" +:+ tag) with (name +:+ String ":" tag).
    by rewrite Split_app, !Split_without_sep. }
  assert (Strings.Contains (name +:+ ":" +:+ tag) "/" = false) as Hfree.
  { change (name +:+ ":" +:+ tag) with (name +:+ String ":" tag).
    rewrite Contains_char_app, Contains_char_cons, Hn1, Ht1.
    by rewrite bool_decide_eq_false_2. }
  unfold parseImageTag. repeat split.
  - rewrite (Hregistry _ Hfree), Htagged. by rewrite Ht3.
  - rewrite (Hbare _ Hfree), Htagged. by rewrite Ht3.
  - assert (Strings.Contains (name +:+ ":" +:+ tag +:+ "@" +:+ digest) "/" = false)
      as Hfree'.
    { change (name +:+ ":" +:+ tag +:+ "@" +:+ digest)
        with (name +:+ String ":" (tag +:+ String "@" digest)).
      rewrite Contains_char_app, Contains_char_cons, Contains_char_app,
        Contains_char_cons, Hn1, Ht1, Hd.
      by rewrite !bool_decide_eq_false_2. }
    rewrite (Hregistry _ Hfree').
    change (name +:+ ":" +:+ tag +:+ "@" +:+ digest)
      with (name +:+ String ":" (tag +:+ String "@" digest)).
    rewrite Split_app, (Split_without_sep name) by done. cbn [app].
    pose proof (Split_nonempty (tag +:+ String "@" digest) ":") as Hne.
    pose proof (hd_Split_app tag (String "@" digest) ":" Ht2) as Hhd.
    destruct (Strings.Split (tag +:+ String "@" digest) ":") as [|piece others];
      [done|].
    cbn [hd] in Hhd. subst piece.
    assert (Strings.Contains (tag +:+ hd "" (Strings.Split (String "@" digest) ":")) "@"
            = true) as ->.
    { rewrite Contains_char_app. apply orb_true_iff. right.
      cbn [Strings.Split]. rewrite eqb_bool_decide, bool_decide_eq_false_2 by done.
      pose proof (Split_nonempty digest ":").
      destruct (Strings.Split digest ":"); [done|]. cbn [hd].
      rewrite Contains_char_cons. by rewrite bool_decide_eq_true_2. }
    f_equal.
    rewrite (hd_Split_app tag _ "@" Ht3).
    cbn [Strings.Split]. rewrite eqb_bool_decide, bool_decide_eq_false_2 by done.
    pose proof (Split_nonempty digest ":").
    destruct (Strings.Split digest ":"); [done|]. cbn [hd Strings.Split].
    rewrite Ascii.eqb_refl. cbn [hd]. apply append_empty.
  - rewrite (Hregistry _ Hn1). by rewrite Split_without_sep.
Qed.

Lemma parseImageTag_round_trip_witness :
  parseImageTag "localhost:5000/team/app:1.2.3" = ("app", "1.2.3")
  ∧ parseImageTag "app:1.2.3" = ("app", "1.2.3")
  ∧ parseImageTag "localhost:5000/team/app:1.2.3@sha256:abcd" = ("app", "1.2.3")
  ∧ parseImageTag "localhost:5000/team/app" = ("app", "latest").
Proof.
  apply (parseImageTag_round_trip "localhost:5000/team" "app" "1.2.3" "sha256:abcd");
    reflexivity.
Defined.

Lemma Split_concat names sep :
  names ≠ [] ->
  (∀ name, name ∈ names -> Strings.Contains name (String sep "") = false) ->
  Strings.Split (String.concat (String sep "") names) sep = names.
Proof.
  induction names as [|name rest IH]; [done|]. intros _ Hfree.
  destruct rest as [|next rest].
  - cbn [String.concat]. apply Split_without_sep, Hfree. left.
  - change (String.concat (String sep "") (name :: next :: rest))
      with (name +:+ String sep (String.concat (String sep "") (next :: rest))).
    rewrite Split_app, IH, Split_without_sep; [done| |done|].
    + apply Hfree. left.
    + intros name' Hin. apply Hfree. by right.
Qed.

(** X22.  A selector written as names joined by commas, none of the names
    holding a comma, parses to those names in their order, each with the
    white space around it trimmed off. *)
Theorem parseNamespaceSelector_joined (names : list string) :
  names ≠ [] ->
  (∀ name, name ∈ names -> Strings.Contains name "," = false) ->
  parseNamespaceSelector (String.concat "," names) = map Strings.TrimSpace names.
Proof.
  intros Hne Hfree. unfold parseNamespaceSelector. case_bool_decide as Hempty.
  - destruct names as [|name [|next rest]]; [done| |].
    + cbn in Hempty. by subst.
    + cbn [String.concat] in Hempty. by destruct name.
  - by rewrite (Split_concat names ",").
Qed.

Lemma parseNamespaceSelector_joined_witness :
  parseNamespaceSelector "prod, staging ,dev" = ["prod"; "staging"; "dev"].
Proof.
  change (parseNamespaceSelector (String.concat "," ["prod"; " staging "; "dev"])
          = map Strings.TrimSpace ["prod"; " staging "; "dev"]).
  apply (parseNamespaceSelector_joined ["prod"; " staging "; "dev"]).
  - discriminate.
  - intros name Hin. repeat (apply elem_of_cons in Hin as [->|Hin]; [reflexivity|]).
    by apply elem_of_nil in Hin.
Defined.

(** ** Nothing is lost on the way *)

(** X23.  When the node list succeeds, [discoverNodes] returns one node
    per listed node, in the order of the list, with its name, its kubelet
    version, the address [getNodeInternalIP] finds and a role that is
    "control-plane" or "worker"; when the list fails, it returns that error,
    wrapped. *)
Theorem discoverNodes_keeps_order (api : Cluster) :
  match nodeList api with
  | inl err => fst (discoverNodes api) = inl (Wrapped "failed to list nodes" err)
  | inr items =>
      ∃ nodes,
        fst (discoverNodes api) = inr nodes
        ∧ length nodes = length items
        ∧ ∀ i item, items !! i = Some item ->
            ∃ node, nodes !! i = Some node
                    ∧ NodeName node = ObjectName item
                    ∧ NodeVersion node = KubeletVersion item
                    ∧ NodeIP node = getNodeInternalIP (Addresses item)
                    ∧ (NodeRole node = "control-plane" ∨ NodeRole node = "worker")
  end.
Proof.
  unfold discoverNodes. destruct (nodeList api) as [err|items]; [done|].
  eexists. split; [reflexivity|]. split; [apply length_map|].
  intros i item Hitem. eexists. split.
  - change (map ?f items) with (f <$> items). rewrite list_lookup_fmap, Hitem.
    reflexivity.
  - cbn. repeat split.
    unfold getNodeRole. repeat case_bool_decide; [by left|by left|].
    apply taintRole_cases.
Qed.

(** X24.  Folding an object, from either source, never removes an entry,
    never renames one and never drops one of its variants; folding a workload
    never changes the version of an entry either. *)
Theorem fold_only_adds (m : gmap string App) (o : Observation) (key : string)
    (existing : App) :
  m !! key = Some existing ->
  ∃ a,
    foldOne m o !! key = Some a
    ∧ Name a = Name existing
    ∧ (∀ v, v ∈ Variants existing -> v ∈ Variants a)
    ∧ (overwrites o = false -> Version a = Version existing).
Proof.
  intros Hkey. rewrite foldOne_upsert.
  destruct (contributes o) as [[n v]|]; [|by exists existing].
  unfold upsert. destruct (decide (n = key)) as [->|Hne].
  - rewrite Hkey, lookup_insert_eq. eexists. split; [done|]. cbn.
    repeat split.
    + intros w Hw. apply addVariant_elem. by left.
    + by intros ->.
  - destruct (m !! n); rewrite lookup_insert_ne by done; by exists existing.
Qed.

Lemma fold_only_adds_witness :
  ∃ a,
    foldOne (foldAll [FromCRD myAppVersion]) (FromWorkload myDeployment) !! "my-app"
    = Some a
    ∧ Name a = "my-app"
    ∧ (∀ v, v ∈ ["1.0.0"] -> v ∈ Variants a)
    ∧ (overwrites (FromWorkload myDeployment) = false -> Version a = "1.0.0").
Proof.
  apply (fold_only_adds (foldAll [FromCRD myAppVersion]) (FromWorkload myDeployment)
           "my-app" {| Name := "my-app"; Version := "1.0.0"; Variants := ["1.0.0"] |}).
  vm_compute. reflexivity.
Defined.
